(* ===================================================================== *)
(* perls2: end-effector impedance controller with posture control        *)
(*   src/perls2/controllers/ee_posture.py  (class EEPostureController)   *)
(*                                                                       *)
(* numpy arrays of floats are read as vectors and matrices over a field  *)
(* F (exact arithmetic): a 1-D array of length k is a column 'cV[F]_k,   *)
(* np.dot is the matrix product, A.T the transpose, np.multiply the      *)
(* entrywise product and np.concatenate of two 3-vectors a col_mx.       *)
(* ===================================================================== *)

From HB Require Import structures.
Set Warnings "-notation-overridden,-ambiguous-paths,-rewrite-rw".
Set Warnings "-notation-for-abbreviation,-abstract-large-number".
From mathcomp Require Import boot algebra.

Set Implicit Arguments.
Unset Strict Implicit.
Unset Printing Implicit Defensive.

Import GRing.Theory Num.Theory.
Local Open Scope ring_scope.

(* --------------------------------------------------------------------- *)
(* Exceptions                                                            *)
(* --------------------------------------------------------------------- *)

(** What a Python call can raise in this module: an operation on a reading
    that is None, or arrays whose shapes do not fit together. *)
Inductive exn : Type :=
  | AbsentReading
  | ShapeMismatch.

Inductive result (A : Type) : Type :=
  | Ok of A
  | Raise of exn.

Arguments Ok {A} _.
Arguments Raise {A} _.

Definition is_ok (A : Type) (r : result A) : bool :=
  if r is Ok _ then true else false.

Definition rbind (A B : Type) (r : result A) (k : A -> result B) : result B :=
  match r with
  | Ok a => k a
  | Raise e => Raise e
  end.

(** A reading of the state provider: None in Python is None here. *)
Definition read (A : Type) (o : option A) : result A :=
  match o with
  | Some a => Ok a
  | None => Raise AbsentReading
  end.

(* --------------------------------------------------------------------- *)
(* 1-D arrays whose length is only known at run time                     *)
(* --------------------------------------------------------------------- *)

Section Arrays.

Variable F : fieldType.

(** The column vector holding the entries of s (padded with 0; only used
    when size s = k). *)
Definition vec_of_seq (k : nat) (s : seq F) : 'cV[F]_k :=
  \col_(i < k) nth 0 s i.

(** A 1-D array used in an entrywise numpy operation against a vector of
    length k: it must have length k, or length 1 (numpy broadcasts it);
    any other length raises ValueError. *)
Definition broadcast (k : nat) (s : seq F) : result 'cV[F]_k :=
  if size s == k then Ok (vec_of_seq k s)
  else if size s == 1%N then Ok (const_mx (nth 0 s 0))
  else Raise ShapeMismatch.

(** np.multiply on two vectors of the same length. *)
Definition multiply (k : nat) (u v : 'cV[F]_k) : 'cV[F]_k :=
  \col_(i < k) (u i 0 * v i 0).

End Arrays.

(* --------------------------------------------------------------------- *)
(* Operational-space math kernel (perls2.controllers.utils.control_utils)*)
(* --------------------------------------------------------------------- *)

Section Kernel.

Variable F : fieldType.
Variable n : nat.                  (* number of joints *)

(** numpy.sqrt on the scalars; used for the critical-damping gain. *)
Variable sqrtF : F -> F.

(** Modelled from the spec: control_utils.py is not part of the sources.
    The inverse used for the operational-space inertia: the inverse where
    the matrix is invertible, a pseudo-inverse where it is singular, so
    that the computation never fails. *)
Definition regularized_inv (m : nat) (A : 'M[F]_m) : 'M[F]_m :=
  if A \in unitmx then invmx A else pinvmx A.

(** Modelled from the spec: control_utils.py is not part of the sources.
    Operational-space inertia  Lambda = (J . M^-1 . J^T)^-1. *)
Definition opspace_inertia (m : nat) (M : 'M[F]_n) (J : 'M[F]_(m, n)) :
    'M[F]_m :=
  regularized_inv (J *m invmx M *m J^T).

(** Modelled from the spec: control_utils.py is not part of the sources.
    The dynamically consistent null-space projector of the task (n x n),
    the one with  J . N = 0 :  N = I - M^-1 . J^T . Lambda . J.
    The product the spec displays,  I - J^T . Lambda . J . M^-1,  is its
    transpose for a symmetric mass matrix (nullspace_projector_tr below):
    that is what nullspace_torques multiplies by. *)
Definition nullspace_projector (m : nat) (M : 'M[F]_n) (J : 'M[F]_(m, n)) :
    'M[F]_n :=
  1%:M - invmx M *m J^T *m opspace_inertia M J *m J.

(** Modelled from the spec: control_utils.py is not part of the sources.
    opspace_matrices(mass_matrix, J_full, J_pos, J_ori) returns the tuple
    (Lambda_full, Lambda_pos, Lambda_ori, N); an absent mass matrix or
    Jacobian is a fatal precondition violation. *)
Definition opspace_matrices
    (mass_matrix : option 'M[F]_n) (J_full : option 'M[F]_(3 + 3, n))
    (J_pos J_ori : option 'M[F]_(3, n)) :
    result ('M[F]_(3 + 3) * 'M[F]_3 * 'M[F]_3 * 'M[F]_n) :=
  match mass_matrix, J_full, J_pos, J_ori with
  | Some M, Some Jf, Some Jp, Some Jo =>
      Ok (opspace_inertia M Jf, opspace_inertia M Jp, opspace_inertia M Jo,
          nullspace_projector M Jf)
  | _, _, _, _ => Raise AbsentReading
  end.

(** Modelled from the spec: control_utils.py is not part of the sources.
    The joint-space PD law towards initial_joint before projection: the
    derivative gain 2 . sqrt(posture_gain) is the critically damped one,
    and the law is weighted by the mass matrix. *)
Definition posture_pd (M : 'M[F]_n)
    (initial_joint joint_pos joint_vel : 'cV[F]_n) (posture_gain : F) :
    'cV[F]_n :=
  M *m (posture_gain *: (initial_joint - joint_pos)
        - (2 * sqrtF posture_gain) *: joint_vel).

(** Modelled from the spec: control_utils.py is not part of the sources.
    nullspace_torques(mass_matrix, nullspace_matrix, initial_joint,
    joint_pos, joint_vel, posture_gain): the PD law left-multiplied by
    N^T.  An initial_joint whose length differs from the joint count is
    rejected (not truncated); absent readings are fatal. *)
Definition nullspace_torques
    (mass_matrix : option 'M[F]_n) (nullspace_matrix : 'M[F]_n)
    (initial_joint : seq F) (joint_pos joint_vel : option 'cV[F]_n)
    (posture_gain : F) : result 'cV[F]_n :=
  match mass_matrix, joint_pos, joint_vel with
  | Some M, Some q, Some qd =>
      if size initial_joint == n then
        Ok (nullspace_matrix^T
              *m posture_pd M (vec_of_seq n initial_joint) q qd posture_gain)
      else Raise ShapeMismatch
  | _, _, _ => Raise AbsentReading
  end.

End Kernel.

(* --------------------------------------------------------------------- *)
(* State and exceptions: a call on the controller object                 *)
(* --------------------------------------------------------------------- *)

(** A method call: it may update the attributes of self and either returns
    a value or raises; the attributes written before a raise stay written. *)
Definition call (S A : Type) : Type := S -> S * result A.

Definition ret (S A : Type) (a : A) : call S A := fun s => (s, Ok a).

Definition bind (S A B : Type) (m : call S A) (k : A -> call S B) : call S B :=
  fun s => let: (s1, r) := m s in
           match r with
           | Ok a => k a s1
           | Raise e => (s1, Raise e)
           end.

Definition lift (S A : Type) (r : result A) : call S A := fun s => (s, r).

Definition self (S : Type) : call S S := fun s => (s, Ok s).

Definition assign (S : Type) (f : S -> S) : call S unit :=
  fun s => (f s, Ok tt).

(** The call m never changes the attribute p. *)
Definition preserves (S B A : Type) (p : S -> B) (m : call S A) : Prop :=
  forall s, p (m s).1 = p s.

Arguments ret {S A} a.
Arguments bind {S A B} m k.
Arguments lift {S A} r.
Arguments self {S}.
Arguments assign {S} f.

Notation "x <-- m ;; k" := (bind m (fun x => k))
  (at level 100, m at next level, right associativity,
   format "'[v' x  <--  m  ;;  '/' k ']'").

Notation "m ;;; k" := (bind m (fun _ => k))
  (at level 100, right associativity).

(* --------------------------------------------------------------------- *)
(* The controller object                                                 *)
(* --------------------------------------------------------------------- *)

Section Controller.

Variable F : fieldType.
Variable n : nat.                  (* number of joints *)
Variable sqrtF : F -> F.

(** orientation_error(desired, current) of control_utils.py, which is not
    part of the sources: a 3-vector computed from two rotation matrices. *)
Variable orientation_error : 'M[F]_3 -> 'M[F]_3 -> 'cV[F]_3.

(** The interpolator interface: an object with an `order` attribute and a
    get_interpolated_goal method, which returns a 1-D array and advances
    the interpolator's own progress. *)
Variable Interp : Type.
Variable order : Interp -> nat.
Variable get_interpolated_goal : Interp -> 'cV[F]_3 -> seq F * Interp.

(** self.model: the readings of the state provider.  Those handed to the
    math kernel may be absent (None); the end-effector readings and the
    torque compensation are arrays (a state provider that leaves one of
    them None is outside this model). *)
Record Model : Type := mkModel {
  mass_matrix : option 'M[F]_n;
  J_full : option 'M[F]_(3 + 3, n);
  J_pos : option 'M[F]_(3, n);
  J_ori : option 'M[F]_(3, n);
  joint_pos : option 'cV[F]_n;
  joint_vel : option 'cV[F]_n;
  ee_pos : 'cV[F]_3;
  ee_ori_mat : 'M[F]_3;
  ee_pos_vel : 'cV[F]_3;
  ee_ori_vel : 'cV[F]_3;
  torque_compensation : 'cV[F]_n
}.

(** The attributes of an EEPostureController that this module reads or
    writes.  posture_gain and goal_posture are its own; the others are
    inherited from EEImpController.  goal_pos, goal_ori and ori_ref are
    arrays: what they hold before the first set_goal is decided by the
    base class, and an object on which they are None is outside this
    model. *)
Record Controller : Type := mkController {
  posture_gain : F;
  goal_posture : seq F;
  model : Model;
  kp : 'cV[F]_(3 + 3);
  kv : 'cV[F]_(3 + 3);
  interpolator_pos : option Interp;
  interpolator_ori : option Interp;
  uncoupling : bool;
  goal_pos : 'cV[F]_3;
  goal_ori : 'M[F]_3;
  ori_ref : 'M[F]_3;
  relative_ori : 'cV[F]_3;
  ori_interpolate_started : bool;
  torques : option 'cV[F]_n
}.

Definition set_interpolator_pos (ip : option Interp) (c : Controller) :=
  mkController (posture_gain c) (goal_posture c) (model c) (kp c) (kv c)
    ip (interpolator_ori c) (uncoupling c) (goal_pos c) (goal_ori c)
    (ori_ref c) (relative_ori c) (ori_interpolate_started c) (torques c).

Definition set_interpolator_ori (io : option Interp) (c : Controller) :=
  mkController (posture_gain c) (goal_posture c) (model c) (kp c) (kv c)
    (interpolator_pos c) io (uncoupling c) (goal_pos c) (goal_ori c)
    (ori_ref c) (relative_ori c) (ori_interpolate_started c) (torques c).

Definition set_uncoupling (b : bool) (c : Controller) :=
  mkController (posture_gain c) (goal_posture c) (model c) (kp c) (kv c)
    (interpolator_pos c) (interpolator_ori c) b (goal_pos c) (goal_ori c)
    (ori_ref c) (relative_ori c) (ori_interpolate_started c) (torques c).

Definition set_relative_ori (r : 'cV[F]_3) (c : Controller) :=
  mkController (posture_gain c) (goal_posture c) (model c) (kp c) (kv c)
    (interpolator_pos c) (interpolator_ori c) (uncoupling c) (goal_pos c)
    (goal_ori c) (ori_ref c) r (ori_interpolate_started c) (torques c).

Definition set_ori_interpolate_started (b : bool) (c : Controller) :=
  mkController (posture_gain c) (goal_posture c) (model c) (kp c) (kv c)
    (interpolator_pos c) (interpolator_ori c) (uncoupling c) (goal_pos c)
    (goal_ori c) (ori_ref c) (relative_ori c) b (torques c).

Definition set_torques (t : option 'cV[F]_n) (c : Controller) :=
  mkController (posture_gain c) (goal_posture c) (model c) (kp c) (kv c)
    (interpolator_pos c) (interpolator_ori c) (uncoupling c) (goal_pos c)
    (goal_ori c) (ori_ref c) (relative_ori c) (ori_interpolate_started c) t.

(** The same controller looking at another state of the model. *)
Definition set_model (m : Model) (c : Controller) :=
  mkController (posture_gain c) (goal_posture c) m (kp c) (kv c)
    (interpolator_pos c) (interpolator_ori c) (uncoupling c) (goal_pos c)
    (goal_ori c) (ori_ref c) (relative_ori c) (ori_interpolate_started c)
    (torques c).

Definition set_mass_matrix (M : option 'M[F]_n) (m : Model) :=
  mkModel M (J_full m) (J_pos m) (J_ori m) (joint_pos m) (joint_vel m)
    (ee_pos m) (ee_ori_mat m) (ee_pos_vel m) (ee_ori_vel m)
    (torque_compensation m).

(** A value used as an operand of an entrywise operation with a 3-vector:
    an array known to have that length, or one whose length is only known
    at run time (a slice of what an interpolator returned).  The Python
    scalar 0.0 acts as the zero vector. *)
Inductive operand : Type :=
  | Fixed of 'cV[F]_3
  | Dynamic of seq F.

Definition to_vec (x : operand) : result 'cV[F]_3 :=
  match x with
  | Fixed v => Ok v
  | Dynamic s => broadcast 3 s
  end.

(** desired position, velocity and acceleration (or orientation error,
    velocity and acceleration) of one cycle. *)
Definition reference : Type := (operand * operand * operand)%type.

(** run_controller, lines 95-104. *)
Definition resolve_position : call Controller reference :=
  c <-- self ;;
  match interpolator_pos c with
  | Some ip =>
      if order ip == 4%N then
        let: (interpolated_results, ip') :=
          get_interpolated_goal ip (ee_pos (model c)) in
        assign (set_interpolator_pos (Some ip')) ;;;
        ret (Dynamic (take 3 interpolated_results),
               Dynamic (take 3 (drop 3 interpolated_results)),
               Dynamic (drop 6 interpolated_results))
      else
        let: (desired_pos, ip') :=
          get_interpolated_goal ip (ee_pos (model c)) in
        assign (set_interpolator_pos (Some ip')) ;;;
        ret (Dynamic desired_pos, Fixed 0, Fixed 0)
  | None => ret (Fixed (goal_pos c), Fixed 0, Fixed 0)
  end.

(** run_controller, lines 106-120. *)
Definition resolve_orientation : call Controller reference :=
  c <-- self ;;
  match interpolator_ori c with
  | Some io =>
      let rel := orientation_error (ee_ori_mat (model c)) (ori_ref c) in
      assign (set_relative_ori rel) ;;;
      let: (interpolated_results, io') := get_interpolated_goal io rel in
      assign (set_interpolator_ori (Some io')) ;;;
      let ori_error := Dynamic (take 3 interpolated_results) in
      if order io' == 4%N then
        assign (set_ori_interpolate_started true) ;;;
        ret (ori_error,
               Dynamic (take 3 (drop 3 interpolated_results)),
               Dynamic (drop 6 interpolated_results))
      else ret (ori_error, Fixed 0, Fixed 0)
  | None =>
      let desired_ori := goal_ori c in
      ret (Fixed (orientation_error desired_ori (ee_ori_mat (model c))),
             Fixed 0, Fixed 0)
  end.

(** run_controller, lines 122-126. *)
Definition desired_force (c : Controller) (r : reference) : result 'cV[F]_3 :=
  let: (desired_pos, desired_vel_pos, desired_acc_pos) := r in
  rbind (to_vec desired_pos) (fun dp =>
  let position_error := dp - ee_pos (model c) in
  rbind (to_vec desired_vel_pos) (fun dv =>
  let vel_pos_error := dv - ee_pos_vel (model c) in
  rbind (to_vec desired_acc_pos) (fun da =>
  Ok (multiply position_error (usubmx (kp c))
      + multiply vel_pos_error (usubmx (kv c)) + da)))).

(** run_controller, lines 128-131. *)
Definition desired_torque (c : Controller) (r : reference) : result 'cV[F]_3 :=
  let: (ori_error, desired_vel_ori, desired_acc_ori) := r in
  rbind (to_vec desired_vel_ori) (fun dv =>
  let vel_ori_error := dv - ee_ori_vel (model c) in
  rbind (to_vec ori_error) (fun oe =>
  rbind (to_vec desired_acc_ori) (fun da =>
  Ok (multiply oe (dsubmx (kp c))
      + multiply vel_ori_error (dsubmx (kv c)) + da)))).

(** run_controller, lines 137-143. *)
Definition decoupled_wrench (uncoupling : bool)
    (lambda_full : 'M[F]_(3 + 3)) (lambda_pos lambda_ori : 'M[F]_3)
    (desired_force desired_torque : 'cV[F]_3) : 'cV[F]_(3 + 3) :=
  if uncoupling then
    let decoupled_force := lambda_pos *m desired_force in
    let decoupled_torque := lambda_ori *m desired_torque in
    col_mx decoupled_force decoupled_torque
  else
    let desired_wrench := col_mx desired_force desired_torque in
    lambda_full *m desired_wrench.

(** run_controller, lines 122-145: from the references of this cycle to
    the assignment of self.torques; the null-space matrix is kept for the
    posture step. *)
Definition task_torques_from (pos ori : reference) :
    call Controller 'M[F]_n :=
  c <-- self ;;
  desired_force <-- lift (desired_force c pos) ;;
  desired_torque <-- lift (desired_torque c ori) ;;
  ms <-- lift (opspace_matrices (mass_matrix (model c)) (J_full (model c))
                 (J_pos (model c)) (J_ori (model c))) ;;
  let: (lambda_full, lambda_pos, lambda_ori, nullspace_matrix) := ms in
  let decoupled_wrench :=
    decoupled_wrench (uncoupling c) lambda_full lambda_pos lambda_ori
      desired_force desired_torque in
  Jf <-- lift (read (J_full (model c))) ;;
  assign (set_torques
            (Some (Jf^T *m decoupled_wrench
                   + torque_compensation (model c)))) ;;;
  ret nullspace_matrix.

(** run_controller, lines 90-145. *)
Definition task_torques : call Controller 'M[F]_n :=
  pos <-- resolve_position ;;
  ori <-- resolve_orientation ;;
  task_torques_from pos ori.

(** run_controller, lines 146-155:  self.torques += nullspace_torques(...)
    and  return self.torques. *)
Definition posture_step (nullspace_matrix : 'M[F]_n) :
    call Controller 'cV[F]_n :=
  c <-- self ;;
  t0 <-- lift (read (torques c)) ;;
  nt <-- lift (nullspace_torques sqrtF (mass_matrix (model c))
                 nullspace_matrix (goal_posture c) (joint_pos (model c))
                 (joint_vel (model c)) (posture_gain c)) ;;
  assign (set_torques (Some (t0 + nt))) ;;;
  c1 <-- self ;;
  lift (read (torques c1)).

(** run_controller, lines 88-155. *)
Definition run_controller : call Controller 'cV[F]_n :=
  nullspace_matrix <-- task_torques ;;
  posture_step nullspace_matrix.

(** The model carries every reading the pre-warm step uses. *)
Definition complete (rm : Model) : bool :=
  [&& isSome (mass_matrix rm), isSome (J_full rm), isSome (J_pos rm),
      isSome (J_ori rm), isSome (joint_pos rm) & isSome (joint_vel rm)].

(** nullspace_torques' own default for posture_gain, used when the caller
    passes none. *)
Variable default_posture_gain : F.

(** _compile_jit_functions, lines 56-81.  T.mat2quat and T.quat2mat are
    applied to the constants eye(3) and (0, 0, 0, 1) and their results are
    dropped, as is that of orientation_error(eye(3), eye(3)). *)
Definition _compile_jit_functions (c : Controller) : result unit :=
  let dummy_mat : 'M[F]_3 := 1%:M in
  rbind (opspace_matrices (mass_matrix (model c)) (J_full (model c))
           (J_pos (model c)) (J_ori (model c))) (fun ms =>
  let: (_, _, _, dummy_nullspace_matrix) := ms in
  rbind (nullspace_torques sqrtF (mass_matrix (model c))
           dummy_nullspace_matrix (goal_posture c) (joint_pos (model c))
           (joint_vel (model c)) default_posture_gain) (fun _ =>
  let _ := orientation_error dummy_mat dummy_mat in
  Ok tt)).

(** EEImpController.__init__ and EEImpController.set_goal (ee_imp.py) are
    not part of the sources.  The base constructor receives the object on
    which posture_gain and goal_posture are already set, the robot model
    and the remaining arguments, and fills in the inherited attributes. *)
Variable BaseArgs : Type.
Variable base_init : Model -> BaseArgs -> F -> seq F -> result Controller.
Variable base_set_goal :
  seq F -> option (seq F) -> option (seq F) -> call Controller unit.

(** __init__, lines 18-53. *)
Definition __init__ (robot_model : Model) (args : BaseArgs)
    (posture_gain : F) (posture : seq F) : result Controller :=
  rbind (base_init robot_model args posture_gain posture) (fun c =>
  rbind (_compile_jit_functions c) (fun _ => Ok c)).

(** set_goal, lines 83-86. *)
Definition set_goal (delta : seq F) (set_pos set_ori : option (seq F)) :
    call Controller unit :=
  base_set_goal delta set_pos set_ori.

End Controller.

(* --------------------------------------------------------------------- *)
(* A seven-joint arm over the rationals, for the closed examples         *)
(* --------------------------------------------------------------------- *)

Module Arm7.

(** Heron's iteration, a square root on the rationals that is exact at 0. *)
Definition heron_sqrt (x : rat) : rat :=
  if x == 0 then 0 else iter 6 (fun y => (y + x / y) / 2%:R) 1.

(** An orientation error in the sense of the kernel's contract: half the
    vector of the skew part of  current . desired^T  (the half sum of the
    cross products of corresponding columns). *)
Definition skew_vee (S : 'M[rat]_3) : 'cV[rat]_3 :=
  \col_(i < 3) (S (i + 1)%R (i + 2%:R)%R - S (i + 2%:R)%R (i + 1)%R).

Definition skew_orientation_error (desired current : 'M[rat]_3) : 'cV[rat]_3 :=
  2%:R^-1 *: skew_vee (current *m desired^T).

(** An interpolator that returns a fixed array at every call. *)
Record table_interp : Type := TableInterp {
  table_order : nat;
  table_out : seq rat
}.

Definition table_get (it : table_interp) (_ : 'cV[rat]_3) :
    seq rat * table_interp :=
  (table_out it, it).

(** The first six joints move the end effector one to one, the seventh
    does not move it. *)
Definition J0 : 'M[rat]_(3 + 3, 3 + 3 + 1) := row_mx 1%:M 0.

Definition J0_pos : 'M[rat]_(3, 3 + 3 + 1) := row_mx (row_mx 1%:M 0) 0.

Definition J0_ori : 'M[rat]_(3, 3 + 3 + 1) := row_mx (row_mx 0 1%:M) 0.

Definition rest_model : Model rat (3 + 3 + 1) :=
  mkModel (Some 1%:M) (Some J0) (Some J0_pos) (Some J0_ori)
    (Some 0) (Some 0) 0 1%:M 0 0 (const_mx 1).

(** The default posture of __init__. *)
Definition default_posture : seq rat :=
  [:: 0; - (118%:R / 100%:R); 0; 218%:R / 100%:R; 0; 57%:R / 100%:R;
      33161%:R / 10000%:R].

(** At rest on its goal, no interpolators, posture regulation off. *)
Definition rest_controller : Controller rat (3 + 3 + 1) table_interp :=
  mkController 0 default_posture rest_model (const_mx 50%:R)
    (const_mx 14%:R) None None true 0 1%:M 1%:M 0 false (Some 0).

(** The same with an orientation interpolator of the given order. *)
Definition with_interpolator_ori (order : nat) :
    Controller rat (3 + 3 + 1) table_interp :=
  set_interpolator_ori (Some (TableInterp order [:: 0; 0; 0])) rest_controller.

(** The same with a posture of three entries only. *)
Definition short_posture_controller :
    Controller rat (3 + 3 + 1) table_interp :=
  mkController 0 [:: 0; 0; 0] rest_model (const_mx 50%:R)
    (const_mx 14%:R) None None true 0 1%:M 1%:M 0 false (Some 0).

(** A mass matrix that couples the first and the last joint:
    the identity except for  M[0,0] = 2  and  M[0,6] = M[6,0] = -1. *)
Definition e0 : 'cV[rat]_(3 + 3) := delta_mx 0 0.

Definition coupled_mass : 'M[rat]_(3 + 3 + 1) :=
  block_mx (1%:M + e0 *m e0^T) (- e0) (- e0^T) 1%:M.

Definition coupled_mass_inv : 'M[rat]_(3 + 3 + 1) :=
  block_mx 1%:M e0 e0^T (2%:R)%:M.

(** The arm at rest with a position interpolator of the given order that
    answers the given array. *)
Definition with_interpolator_pos (order : nat) (out : seq rat) :
    Controller rat (3 + 3 + 1) table_interp :=
  set_interpolator_pos (Some (TableInterp order out)) rest_controller.

(** The arm at rest with an orientation interpolator of the given order
    that answers the given array. *)
Definition with_interpolator_ori_out (order : nat) (out : seq rat) :
    Controller rat (3 + 3 + 1) table_interp :=
  set_interpolator_ori (Some (TableInterp order out)) rest_controller.

(** The arm at rest when the state provider has no mass matrix. *)
Definition no_mass_controller : Controller rat (3 + 3 + 1) table_interp :=
  set_model (set_mass_matrix None rest_model) rest_controller.

(** A base constructor that stores what it is given, with the gains and
    the goal of rest_controller. *)
Definition store_init (rm : Model rat (3 + 3 + 1)) (_ : unit)
    (posture_gain : rat) (posture : seq rat) :
    result (Controller rat (3 + 3 + 1) table_interp) :=
  Ok (mkController posture_gain posture rm (const_mx 50%:R)
        (const_mx 14%:R) None None true 0 1%:M 1%:M 0 false None).

End Arm7.

(* ===================================================================== *)
(* Properties                                                            *)
(* ===================================================================== *)

Section ArrayFacts.

Variable F : fieldType.

Lemma multiply0l (k : nat) (v : 'cV[F]_k) : multiply 0 v = 0.
Proof. by apply/colP => i; rewrite !mxE mul0r. Qed.

Lemma multiply0r (k : nat) (u : 'cV[F]_k) : multiply u 0 = 0.
Proof. by apply/colP => i; rewrite !mxE mulr0. Qed.

Lemma delta_mx_11 : delta_mx 0 0 = 1%:M :> 'M[F]_1.
Proof. by apply/matrixP => i j; rewrite !mxE !ord1. Qed.

Lemma invmx_from_right (m : nat) (A B : 'M[F]_m) :
  A *m B = 1%:M -> A \in unitmx /\ invmx A = B.
Proof.
move=> AB; have [UA _] := mulmx1_unit AB; split=> //.
by rewrite -[LHS]mulmx1 -AB mulmxA mulVmx // mul1mx.
Qed.

End ArrayFacts.

Section KernelFacts.

Variable F : fieldType.
Variable n : nat.
Variable sqrtF : F -> F.

Lemma regularized_inv_unit (m : nat) (A : 'M[F]_m) :
  A \in unitmx -> regularized_inv A = invmx A.
Proof. by rewrite /regularized_inv => ->. Qed.

Lemma regularized_inv1 (m : nat) : regularized_inv (1%:M : 'M[F]_m) = 1%:M.
Proof. by rewrite regularized_inv_unit ?unitmx1 // invmx1. Qed.

Lemma opspace_inertiaK (m : nat) (M : 'M[F]_n) (J : 'M[F]_(m, n)) :
  J *m invmx M *m J^T \in unitmx ->
  opspace_inertia M J *m (J *m invmx M *m J^T) = 1%:M.
Proof.
by move=> U; rewrite /opspace_inertia regularized_inv_unit // mulVmx.
Qed.

Lemma opspace_inertiaKr (m : nat) (M : 'M[F]_n) (J : 'M[F]_(m, n)) :
  J *m invmx M *m J^T \in unitmx ->
  (J *m invmx M *m J^T) *m opspace_inertia M J = 1%:M.
Proof.
by move=> U; rewrite /opspace_inertia regularized_inv_unit // mulmxV.
Qed.

(** J . N = 0 *)
Lemma nullspace_projector_J (m : nat) (M : 'M[F]_n) (J : 'M[F]_(m, n)) :
  J *m invmx M *m J^T \in unitmx ->
  J *m nullspace_projector M J = 0.
Proof.
move=> U; rewrite /nullspace_projector mulmxBr mulmx1.
by rewrite !mulmxA opspace_inertiaKr // mul1mx subrr.
Qed.

(** N . N = N *)
Lemma nullspace_projector_idem (m : nat) (M : 'M[F]_n) (J : 'M[F]_(m, n)) :
  J *m invmx M *m J^T \in unitmx ->
  nullspace_projector M J *m nullspace_projector M J = nullspace_projector M J.
Proof.
move=> U; rewrite {1}/nullspace_projector mulmxBl mul1mx.
by rewrite -mulmxA nullspace_projector_J // mulmx0 subr0.
Qed.

Lemma opspace_inertia_sym (m : nat) (M : 'M[F]_n) (J : 'M[F]_(m, n)) :
  M^T = M -> J *m invmx M *m J^T \in unitmx ->
  (opspace_inertia M J)^T = opspace_inertia M J.
Proof.
move=> S U; rewrite /opspace_inertia regularized_inv_unit // trmx_inv.
by rewrite !trmx_mul trmxK trmx_inv S mulmxA.
Qed.

(** For a symmetric mass matrix, N^T is the product
    I - J^T . Lambda . J . M^-1. *)
Lemma nullspace_projector_tr (m : nat) (M : 'M[F]_n) (J : 'M[F]_(m, n)) :
  M^T = M -> J *m invmx M *m J^T \in unitmx ->
  (nullspace_projector M J)^T
    = 1%:M - J^T *m opspace_inertia M J *m J *m invmx M.
Proof.
move=> S U; rewrite /nullspace_projector linearB /= trmx1 !trmx_mul trmxK.
by rewrite opspace_inertia_sym // trmx_inv S !mulmxA.
Qed.

(** J . M^-1 . N^T = 0 : for a symmetric mass matrix, a torque multiplied
    by N^T gives no task-space acceleration. *)
Lemma nullspace_projector_tr_task (m : nat) (M : 'M[F]_n)
    (J : 'M[F]_(m, n)) :
  M^T = M -> J *m invmx M *m J^T \in unitmx ->
  J *m invmx M *m (nullspace_projector M J)^T = 0.
Proof.
move=> S U; rewrite nullspace_projector_tr // mulmxBr mulmx1.
by rewrite !mulmxA opspace_inertiaKr // mul1mx subrr.
Qed.

Lemma posture_pd_gain0 (M : 'M[F]_n) (q0 q qd : 'cV[F]_n) :
  sqrtF 0 = 0 -> posture_pd sqrtF M q0 q qd 0 = 0.
Proof.
by move=> s0; rewrite /posture_pd s0 mulr0 !scale0r subr0 mulmx0.
Qed.


Lemma nullspace_torques_gain0_ok
    (M N : 'M[F]_n) (initial_joint : seq F) (joint_pos joint_vel : 'cV[F]_n) :
  sqrtF 0 = 0 ->
  size initial_joint = n ->
  nullspace_torques sqrtF (Some M) N initial_joint (Some joint_pos)
    (Some joint_vel) 0 = Ok 0.
Proof.
move=> s0 sz; rewrite /nullspace_torques sz eqxx.
by rewrite posture_pd_gain0 // mulmx0.
Qed.

(** Whenever nullspace_torques returns with posture_gain = 0, it returns
    the zero vector. *)
Lemma nullspace_torques_gain0_inv
    (M : option 'M[F]_n) (N : 'M[F]_n) (initial_joint : seq F)
    (joint_pos joint_vel : option 'cV[F]_n) (t : 'cV[F]_n) :
  sqrtF 0 = 0 ->
  nullspace_torques sqrtF M N initial_joint joint_pos joint_vel 0 = Ok t ->
  t = 0.
Proof.
move=> s0; rewrite /nullspace_torques.
case: M => [M|] //; case: joint_pos => [q|] //; case: joint_vel => [qd|] //.
by case: ifP => // _ [<-]; rewrite posture_pd_gain0 // mulmx0.
Qed.

End KernelFacts.

(* --------------------------------------------------------------------- *)
(* Calls: what a step leaves unchanged                                   *)
(* --------------------------------------------------------------------- *)

Section Frames.

Variables S B : Type.

Variable p : S -> B.

Lemma preserves_ret (A : Type) (a : A) : preserves p (ret a).
Proof. by []. Qed.

Lemma preserves_lift (A : Type) (r : result A) : preserves p (lift r).
Proof. by []. Qed.

Lemma preserves_self : preserves p self.
Proof. by []. Qed.

Lemma preserves_assign (f : S -> S) :
  (forall s, p (f s) = p s) -> preserves p (assign f).
Proof. by move=> H s; rewrite /assign /= H. Qed.

Lemma preserves_bind (A C : Type) (m : call S A) (k : A -> call S C) :
  preserves p m -> (forall a, preserves p (k a)) -> preserves p (bind m k).
Proof.
move=> Hm Hk s; rewrite /bind -(Hm s).
by case: (m s) => s1 [a|e] //=; rewrite Hk.
Qed.

End Frames.

Ltac frame_step :=
  first
    [ apply: preserves_ret
    | apply: preserves_lift
    | apply: preserves_self
    | by apply: preserves_assign
    | apply: preserves_bind => [|?]
    | match goal with
      | |- context [let: (_, _) := ?x in _] => case: x => ? ?
      | |- context [if ?b then _ else _] => case: b
      | |- context [match ?x with Some _ => _ | None => _ end] =>
          case: x => [?|]
      end ].

Ltac frame := repeat frame_step.

(* --------------------------------------------------------------------- *)
(* The controller                                                        *)
(* --------------------------------------------------------------------- *)

Ltac unfold_cycle :=
  rewrite /run_controller /task_torques /resolve_position
    /resolve_orientation /task_torques_from /posture_step.

Section ControllerFacts.

Variable F : fieldType.
Variable n : nat.
Variable sqrtF : F -> F.
Variable orientation_error : 'M[F]_3 -> 'M[F]_3 -> 'cV[F]_3.
Variable Interp : Type.
Variable order : Interp -> nat.
Variable get_interpolated_goal : Interp -> 'cV[F]_3 -> seq F * Interp.

Local Notation controller := (Controller F n Interp).
Local Notation resolve_position :=
  (@resolve_position F n Interp order get_interpolated_goal).
Local Notation resolve_orientation :=
  (@resolve_orientation F n orientation_error Interp order
     get_interpolated_goal).
Local Notation task_torques :=
  (@task_torques F n orientation_error Interp order get_interpolated_goal).
Local Notation posture_step := (@posture_step F n sqrtF Interp).
Local Notation run_controller :=
  (@run_controller F n sqrtF orientation_error Interp order
     get_interpolated_goal).

Implicit Types (c : controller) (pos ori : reference F).

(* ---- what each step leaves unchanged -------------------------------- *)

Lemma run_controller_goal_pos : preserves (@goal_pos F n Interp) run_controller.
Proof. by unfold_cycle; frame. Qed.

Lemma run_controller_goal_ori : preserves (@goal_ori F n Interp) run_controller.
Proof. by unfold_cycle; frame. Qed.

Lemma run_controller_ori_ref : preserves (@ori_ref F n Interp) run_controller.
Proof. by unfold_cycle; frame. Qed.

Lemma resolve_position_frame (B : Type) (p : controller -> B) :
  (forall ip c, p (set_interpolator_pos ip c) = p c) ->
  preserves p resolve_position.
Proof. by move=> H; rewrite /resolve_position; frame. Qed.

Lemma after_orientation_frame (B : Type) (p : controller -> B) pos ori :
  (forall t c, p (set_torques t c) = p c) ->
  preserves p (nm <-- task_torques_from pos ori ;; posture_step nm).
Proof. by move=> H; rewrite /task_torques_from /posture_step; frame. Qed.

(* ---- the cycle, step by step ---------------------------------------- *)

Lemma run_controller_steps c :
  run_controller c =
  let: (c1, r1) := resolve_position c in
  match r1 with
  | Ok pos =>
      let: (c2, r2) := resolve_orientation c1 in
      match r2 with
      | Ok ori => (nm <-- task_torques_from pos ori ;; posture_step nm) c2
      | Raise e => (c2, Raise e)
      end
  | Raise e => (c1, Raise e)
  end.
Proof.
rewrite /run_controller /task_torques /bind.
case: (resolve_position c) => c1 [pos|e] //.
by case: (resolve_orientation c1) => c2 [ori|e].
Qed.

Lemma resolve_position_static c :
  interpolator_pos c = None ->
  resolve_position c = (c, Ok (Fixed (goal_pos c), Fixed 0, Fixed 0)).
Proof. by rewrite /resolve_position /bind /= => ->. Qed.

Lemma resolve_orientation_static c :
  interpolator_ori c = None ->
  resolve_orientation c =
    (c, Ok (Fixed (orientation_error (goal_ori c) (ee_ori_mat (model c))),
            Fixed 0, Fixed 0)).
Proof. by rewrite /resolve_orientation /bind /= => ->. Qed.

(** C8: with no position interpolator and no orientation interpolator,
    the cycle uses the stored goal position as desired position with zero
    desired velocity and acceleration, and the orientation error computed
    directly between the stored goal orientation and the current
    end-effector orientation. *)
Theorem run_controller_static_references c :
  interpolator_pos c = None ->
  interpolator_ori c = None ->
  let pos := (Fixed (goal_pos c), Fixed 0, Fixed 0) in
  let ori := (Fixed (orientation_error (goal_ori c) (ee_ori_mat (model c))),
              Fixed 0, Fixed 0) in
  [/\ resolve_position c = (c, Ok pos),
      resolve_orientation c = (c, Ok ori)
    & run_controller c
        = (nm <-- task_torques_from pos ori ;; posture_step nm) c].
Proof.
move=> Hp Ho /=; split.
- exact: resolve_position_static.
- exact: resolve_orientation_static.
- by rewrite run_controller_steps resolve_position_static //
       resolve_orientation_static.
Qed.

(* ---- lines 122-145 and 146-155, evaluated ---------------------------- *)

Lemma task_torques_from_ok c pos ori f t M Jf Jp Jo :
  desired_force c pos = Ok f -> desired_torque c ori = Ok t ->
  mass_matrix (model c) = Some M -> J_full (model c) = Some Jf ->
  J_pos (model c) = Some Jp -> J_ori (model c) = Some Jo ->
  task_torques_from pos ori c =
    (set_torques
       (Some (Jf^T *m decoupled_wrench (uncoupling c) (opspace_inertia M Jf)
                        (opspace_inertia M Jp) (opspace_inertia M Jo) f t
              + torque_compensation (model c))) c,
     Ok (nullspace_projector M Jf)).
Proof.
by rewrite /task_torques_from /bind /= => -> -> -> -> -> ->.
Qed.

(** A raise in lines 122-145 happens before self.torques is assigned. *)
Lemma task_torques_from_raise c c' pos ori e :
  task_torques_from pos ori c = (c', Raise e) -> c' = c.
Proof.
rewrite /task_torques_from /bind /=.
case: (desired_force c pos) => [f|e1] /=; last by case.
case: (desired_torque c ori) => [t|e1] /=; last by case.
case: (opspace_matrices _ _ _ _) => [[[[lf lp] lo] N]|e1] /=; last by case.
by case: (J_full (model c)) => [Jf|] /=; case.
Qed.

(** A return from lines 122-145 has assigned  J_full^T . wrench + torque
    compensation  to self.torques and changed nothing else. *)
Lemma task_torques_from_return c c' pos ori N :
  task_torques_from pos ori c = (c', Ok N) ->
  exists Jf w,
    J_full (model c) = Some Jf /\
    c' = set_torques (Some (Jf^T *m w + torque_compensation (model c))) c.
Proof.
rewrite /task_torques_from /bind /=.
case: (desired_force c pos) => [f|e1] /=; last by [].
case: (desired_torque c ori) => [t|e1] /=; last by [].
case: (opspace_matrices _ _ _ _) => [[[[lf lp] lo] N']|e1] /=; last by [].
case: (J_full (model c)) => [Jf|] //= [<- _].
by exists Jf, (decoupled_wrench (uncoupling c) lf lp lo f t).
Qed.

Lemma posture_step_ok c N t0 nt :
  torques c = Some t0 ->
  nullspace_torques sqrtF (mass_matrix (model c)) N (goal_posture c)
    (joint_pos (model c)) (joint_vel (model c)) (posture_gain c) = Ok nt ->
  posture_step N c = (set_torques (Some (t0 + nt)) c, Ok (t0 + nt)).
Proof. by rewrite /posture_step /bind /= => -> ->. Qed.

(** A raise in the posture step leaves the attributes as line 145 left
    them. *)
Lemma posture_step_raise c c' N e :
  posture_step N c = (c', Raise e) -> c' = c.
Proof.
rewrite /posture_step /bind /=.
case: (torques c) => [t0|] /=; last by case.
by case: (nullspace_torques _ _ _ _ _ _ _) => [nt|e1] /=; case.
Qed.

Lemma posture_step_return c c' N tau :
  posture_step N c = (c', Ok tau) ->
  exists t0 nt,
    [/\ torques c = Some t0,
        nullspace_torques sqrtF (mass_matrix (model c)) N (goal_posture c)
          (joint_pos (model c)) (joint_vel (model c)) (posture_gain c) = Ok nt,
        tau = t0 + nt & c' = set_torques (Some tau) c].
Proof.
rewrite /posture_step /bind /=.
case: (torques c) => [t0|] //=.
case E: (nullspace_torques _ _ _ _ _ _ _) => [nt|e1] //= [<- <-].
by exists t0, nt.
Qed.

Lemma task_torques_raise c c' e :
  task_torques c = (c', Raise e) -> torques c' = torques c.
Proof.
rewrite /task_torques /bind.
have Hp := @resolve_position_frame _ (@torques F n Interp) _ c.
case: (resolve_position c) Hp => c1 [pos|e1] /= Hp; last first.
  by case=> <- _; apply: Hp.
have Ho : torques (resolve_orientation c1).1 = torques c1.
  by rewrite /resolve_orientation; move: c1 {Hp}; frame.
case: (resolve_orientation c1) Ho => c2 [ori|e1] /= Ho; last first.
  by case=> <- _; rewrite Ho Hp.
by move/task_torques_from_raise => ->; rewrite Ho Hp.
Qed.

Lemma task_torques_return c c' N :
  task_torques c = (c', Ok N) ->
  exists Jf w,
    J_full (model c') = Some Jf /\
    torques c' = Some (Jf^T *m w + torque_compensation (model c')).
Proof.
rewrite /task_torques /bind.
case: (resolve_position c) => c1 [pos|e1] //=.
case: (resolve_orientation c1) => c2 [ori|e1] //=.
by case/task_torques_from_return => Jf [w [HJ ->]]; exists Jf, w.
Qed.

(* ---- at rest on the goal -------------------------------------------- *)

Lemma decoupled_wrench0 (b : bool) (lf : 'M[F]_(3 + 3)) (lp lo : 'M[F]_3) :
  decoupled_wrench b lf lp lo 0 0 = 0.
Proof.
by rewrite /decoupled_wrench; case: b; rewrite ?mulmx0 col_mx0 ?mulmx0.
Qed.

Lemma set_torques_twice (t t' : option 'cV[F]_n) c :
  set_torques t (set_torques t' c) = set_torques t c.
Proof. by []. Qed.

(** Lines 90-145 at rest on the goal: the task wrench is zero and line 145
    assigns the torque compensation alone. *)
Lemma task_torques_at_goal c M Jf Jp Jo :
  (forall R, orientation_error R R = 0) ->
  mass_matrix (model c) = Some M -> J_full (model c) = Some Jf ->
  J_pos (model c) = Some Jp -> J_ori (model c) = Some Jo ->
  interpolator_pos c = None -> interpolator_ori c = None ->
  goal_pos c = ee_pos (model c) -> goal_ori c = ee_ori_mat (model c) ->
  ee_pos_vel (model c) = 0 -> ee_ori_vel (model c) = 0 ->
  task_torques c = (set_torques (Some (torque_compensation (model c))) c,
          Ok (nullspace_projector M Jf)).
Proof.
move=> oe0 HM HJf HJp HJo Hip Hio Hgp Hgo Hv Hw.
rewrite /task_torques {1}/bind resolve_position_static //.
rewrite {1}/bind resolve_orientation_static //.
have Hf : desired_force c (Fixed (goal_pos c), Fixed 0, Fixed 0) = Ok 0.
  by rewrite /desired_force /= Hgp Hv !subrr !multiply0l !addr0.
have Ht : desired_torque c
            (Fixed (orientation_error (goal_ori c) (ee_ori_mat (model c))),
             Fixed 0, Fixed 0) = Ok 0.
  by rewrite /desired_torque /= Hgo oe0 Hw subrr !multiply0l !addr0.
rewrite (task_torques_from_ok Hf Ht HM HJf HJp HJo).
by rewrite decoupled_wrench0 mulmx0 add0r.
Qed.

Lemma run_controller_at_goal c M Jf Jp Jo q qd :
  sqrtF 0 = 0 ->
  (forall R, orientation_error R R = 0) ->
  mass_matrix (model c) = Some M -> J_full (model c) = Some Jf ->
  J_pos (model c) = Some Jp -> J_ori (model c) = Some Jo ->
  joint_pos (model c) = Some q -> joint_vel (model c) = Some qd ->
  size (goal_posture c) = n ->
  interpolator_pos c = None -> interpolator_ori c = None ->
  goal_pos c = ee_pos (model c) -> goal_ori c = ee_ori_mat (model c) ->
  ee_pos_vel (model c) = 0 -> ee_ori_vel (model c) = 0 ->
  posture_gain c = 0 ->
  run_controller c = (set_torques (Some (torque_compensation (model c))) c,
           Ok (torque_compensation (model c))).
Proof.
move=> s0 oe0 HM HJf HJp HJo Hq Hqd Hsz Hip Hio Hgp Hgo Hv Hw Hg.
rewrite /run_controller /bind.
rewrite (task_torques_at_goal oe0 HM HJf HJp HJo) //.
set c1 := set_torques _ c.
have Hnt : nullspace_torques sqrtF (mass_matrix (model c1))
             (nullspace_projector M Jf) (goal_posture c1)
             (joint_pos (model c1)) (joint_vel (model c1)) (posture_gain c1)
           = Ok 0.
  by rewrite /= HM Hq Hqd Hg nullspace_torques_gain0_ok.
by rewrite (posture_step_ok (erefl : torques c1 = Some _) Hnt) addr0.
Qed.

(** At rest on the goal with a posture target of the wrong length: the
    null-space step raises after line 145 has assigned self.torques. *)
Lemma run_controller_at_goal_bad_posture c M Jf Jp Jo q qd :
  (forall R, orientation_error R R = 0) ->
  mass_matrix (model c) = Some M -> J_full (model c) = Some Jf ->
  J_pos (model c) = Some Jp -> J_ori (model c) = Some Jo ->
  joint_pos (model c) = Some q -> joint_vel (model c) = Some qd ->
  size (goal_posture c) != n ->
  interpolator_pos c = None -> interpolator_ori c = None ->
  goal_pos c = ee_pos (model c) -> goal_ori c = ee_ori_mat (model c) ->
  ee_pos_vel (model c) = 0 -> ee_ori_vel (model c) = 0 ->
  run_controller c = (set_torques (Some (torque_compensation (model c))) c,
           Raise ShapeMismatch).
Proof.
move=> oe0 HM HJf HJp HJo Hq Hqd Hsz Hip Hio Hgp Hgo Hv Hw.
rewrite /run_controller /bind.
rewrite (task_torques_at_goal oe0 HM HJf HJp HJo) //.
rewrite /posture_step /bind /= HM Hq Hqd /nullspace_torques.
by rewrite (negbTE Hsz).
Qed.

(** C5: nullspace_torques called with posture_gain = 0 returns the zero
    vector for every mass matrix, null-space matrix, posture target (of the
    joint count) and joint position and velocity, and never returns anything
    else; so with posture_gain = 0 a cycle that returns leaves the
    attributes as the task step (line 145) left them and returns the torque
    assigned there: the posture term adds nothing. *)
Theorem posture_gain0_adds_nothing :
  sqrtF 0 = 0 ->
  [/\ forall (M N : 'M[F]_n) (initial_joint : seq F) (q qd : 'cV[F]_n),
        size initial_joint = n ->
        nullspace_torques sqrtF (Some M) N initial_joint (Some q) (Some qd) 0
          = Ok 0,
      forall (M : option 'M[F]_n) (N : 'M[F]_n) (initial_joint : seq F)
             (q qd : option 'cV[F]_n) (t : 'cV[F]_n),
        nullspace_torques sqrtF M N initial_joint q qd 0 = Ok t -> t = 0
    & forall c c' tau,
        posture_gain c = 0 -> run_controller c = (c', Ok tau) ->
        torques c' = Some tau /\ exists N, task_torques c = (c', Ok N)].
Proof.
move=> s0; split.
- by move=> M N q0 q qd sz; apply: nullspace_torques_gain0_ok.
- by move=> M N q0 q qd t; apply: nullspace_torques_gain0_inv.
move=> c c' tau Hg; rewrite /run_controller /bind.
case E: (task_torques c) => [c1 [N|e]] //= Hps.
have [Jf [w [_ Ht]]] := task_torques_return E.
have Hpg : preserves (@posture_gain F n Interp) task_torques.
  by rewrite /task_torques /resolve_position /resolve_orientation
       /task_torques_from; frame.
have Hg1 : posture_gain c1 = 0 by have := Hpg c; rewrite E /= Hg.
have [t0 [nt [Ht0 Hnt -> ->]]] := posture_step_return Hps.
move: Hnt; rewrite Hg1 => /(nullspace_torques_gain0_inv s0) ->.
rewrite addr0 /=; split=> //; exists N.
by case: c1 Ht0 {E Hps Ht Hg1} => /= *; subst.
Qed.

(** C9 (as amended): a cycle that raises returns no torque vector; the
    cached torques attribute is then either untouched (the raise came
    before line 145) or, when the raise came from the null-space step,
    holds what line 145 assigned in this cycle: J_full^T . wrench plus the
    torque compensation, without the posture term. *)
Theorem run_controller_raise_torques c c' e :
  run_controller c = (c', Raise e) ->
  torques c' = torques c \/
  exists N Jf w,
    [/\ task_torques c = (c', Ok N),
        J_full (model c') = Some Jf
      & torques c' = Some (Jf^T *m w + torque_compensation (model c'))].
Proof.
rewrite /run_controller /bind.
case E: (task_torques c) => [c1 [N|e1]] /=.
- move/posture_step_raise => ->; right.
  by have [Jf [w [HJ Ht]]] := task_torques_return E; exists N, Jf, w.
- by case=> <- _; left; apply: task_torques_raise E.
Qed.

(* ---- the orientation branch ----------------------------------------- *)

Lemma resolve_position_returns c : exists pos, (resolve_position c).2 = Ok pos.
Proof.
rewrite /resolve_position /bind /=.
case: (interpolator_pos c) => [ip|] /=; last by eexists.
by case: ifP => _; case: (get_interpolated_goal _ _) => res ip' /=; eexists.
Qed.

(** Lines 106-116 with an orientation interpolator attached. *)
Lemma resolve_orientation_attached c io :
  interpolator_ori c = Some io ->
  let rel := orientation_error (ee_ori_mat (model c)) (ori_ref c) in
  let res := (get_interpolated_goal io rel).1 in
  let io' := (get_interpolated_goal io rel).2 in
  let c2 := set_interpolator_ori (Some io') (set_relative_ori rel c) in
  resolve_orientation c =
    if order io' == 4%N then
      (set_ori_interpolate_started true c2,
       Ok (Dynamic (take 3 res), Dynamic (take 3 (drop 3 res)),
           Dynamic (drop 6 res)))
    else (c2, Ok (Dynamic (take 3 res), Fixed 0, Fixed 0)).
Proof.
rewrite /resolve_orientation /bind /= => ->.
by case: (get_interpolated_goal _ _) => res io' /=; case: ifP.
Qed.

(** The orientation attributes after a cycle. *)
Lemma run_controller_orientation_attrs c :
  let c' := (run_controller c).1 in
  match interpolator_ori c with
  | None =>
      [/\ relative_ori c' = relative_ori c,
          ori_interpolate_started c' = ori_interpolate_started c
        & interpolator_ori c' = None]
  | Some io =>
      let rel := orientation_error (ee_ori_mat (model c)) (ori_ref c) in
      let io' := (get_interpolated_goal io rel).2 in
      [/\ relative_ori c' = rel,
          ori_interpolate_started c'
            = (order io' == 4%N) || ori_interpolate_started c
        & interpolator_ori c' = Some io']
  end.
Proof.
rewrite /= run_controller_steps.
have Hio := @resolve_position_frame _ (@interpolator_ori F n Interp) _ c.
have Hrel := @resolve_position_frame _ (@relative_ori F n Interp) _ c.
have Hfl := @resolve_position_frame _ (@ori_interpolate_started F n Interp) _ c.
have Hmo := @resolve_position_frame _ (@model F n Interp) _ c.
have Hrf := @resolve_position_frame _ (@ori_ref F n Interp) _ c.
have [pos] := resolve_position_returns c.
case: (resolve_position c) Hio Hrel Hfl Hmo Hrf => c1 r1 /=.
move=> Hio Hrel Hfl Hmo Hrf ->.
rewrite -Hio // -Hrel // -Hfl // -Hmo // -Hrf //.
case E: (interpolator_ori c1) => [io|].
- rewrite (resolve_orientation_attached E) /=.
  set rel := orientation_error _ _; set io' := (get_interpolated_goal _ _).2.
  case: ifP => _ /=.
  + by split; rewrite after_orientation_frame.
  + by split; rewrite after_orientation_frame.
- rewrite (resolve_orientation_static E).
  by split; rewrite after_orientation_frame.
Qed.

(** C6 (as amended): a cycle never changes the goal position, the goal
    orientation or the orientation reference ori_ref; with no orientation
    interpolator attached it changes no attribute of the goal state at all.
    (With one attached it overwrites relative_ori and, for order 4, sets
    ori_interpolate_started.) *)
Theorem run_controller_goal_state c :
  let c' := (run_controller c).1 in
  [/\ goal_pos c' = goal_pos c,
      goal_ori c' = goal_ori c,
      ori_ref c' = ori_ref c
    & interpolator_ori c = None ->
      relative_ori c' = relative_ori c /\
      ori_interpolate_started c' = ori_interpolate_started c].
Proof.
split.
- exact: run_controller_goal_pos.
- exact: run_controller_goal_ori.
- exact: run_controller_ori_ref.
- move=> Hio; have := run_controller_orientation_attrs c.
  by rewrite Hio; case.
Qed.

(** C7 (as amended): with an orientation interpolator attached (of any
    order), the cycle computes the relative orientation error between the
    current end-effector orientation and ori_ref, records it in
    relative_ori, feeds it to the interpolator and takes the first three
    entries of the answer as orientation error; it sets
    ori_interpolate_started only when the interpolator's order is 4, and
    leaves the flag as it was for any other order. *)
Theorem run_controller_interpolated_orientation c c1 pos io :
  interpolator_ori c = Some io ->
  resolve_position c = (c1, Ok pos) ->
  let rel := orientation_error (ee_ori_mat (model c)) (ori_ref c) in
  let res := (get_interpolated_goal io rel).1 in
  let io' := (get_interpolated_goal io rel).2 in
  exists c2 vel acc,
    [/\ resolve_orientation c1 = (c2, Ok (Dynamic (take 3 res), vel, acc)),
        run_controller c
          = (nm <-- task_torques_from pos (Dynamic (take 3 res), vel, acc) ;;
             posture_step nm) c2
      & [/\ relative_ori (run_controller c).1 = rel,
            interpolator_ori (run_controller c).1 = Some io'
          & ori_interpolate_started (run_controller c).1
              = (order io' == 4%N) || ori_interpolate_started c]].
Proof.
move=> Hio Hrp /=.
have Hio1 : interpolator_ori c1 = Some io.
  have := @resolve_position_frame _ (@interpolator_ori F n Interp) _ c.
  by rewrite Hrp /= Hio; apply.
have Hmo : model c1 = model c.
  have := @resolve_position_frame _ (@model F n Interp) _ c.
  by rewrite Hrp /=; apply.
have Hrf : ori_ref c1 = ori_ref c.
  have := @resolve_position_frame _ (@ori_ref F n Interp) _ c.
  by rewrite Hrp /=; apply.
have Hro := resolve_orientation_attached Hio1.
rewrite /= Hmo Hrf in Hro.
have := run_controller_orientation_attrs c; rewrite /= Hio => -[Hrel Hfl Hi'].
move: Hro Hfl; case: (order _ == 4%N) => Hro Hfl.
- eexists _, _, _; split; first exact: Hro.
  + by rewrite run_controller_steps Hrp Hro.
  + by split.
- eexists _, _, _; split; first exact: Hro.
  + by rewrite run_controller_steps Hrp Hro.
  + by split.
Qed.

(* ---- decoupled and coupled mode -------------------------------------- *)

Lemma decoupled_wrench_block (b b' : bool) (lf : 'M[F]_(3 + 3))
    (lp lo : 'M[F]_3) (f t : 'cV[F]_3) :
  lf = block_mx lp 0 0 lo ->
  decoupled_wrench b lf lp lo f t = decoupled_wrench b' lf lp lo f t.
Proof.
move=> ->; have E : block_mx lp 0 0 lo *m col_mx f t
                    = col_mx (lp *m f) (lo *m t).
  by rewrite mul_block_col !mul0mx addr0 add0r.
by rewrite /decoupled_wrench; case: b; case: b'; rewrite ?E.
Qed.

Lemma task_torques_fromE pos ori c :
  task_torques_from pos ori c =
  match desired_force c pos with
  | Raise e => (c, Raise e)
  | Ok f =>
    match desired_torque c ori with
    | Raise e => (c, Raise e)
    | Ok t =>
      match opspace_matrices (mass_matrix (model c)) (J_full (model c))
              (J_pos (model c)) (J_ori (model c)) with
      | Raise e => (c, Raise e)
      | Ok (lf, lp, lo, N) =>
        match J_full (model c) with
        | None => (c, Raise AbsentReading)
        | Some Jf =>
            (set_torques
               (Some (Jf^T *m decoupled_wrench (uncoupling c) lf lp lo f t
                      + torque_compensation (model c))) c,
             Ok N)
        end
      end
    end
  end.
Proof.
rewrite /task_torques_from /bind /=.
case: (desired_force c pos) => [f|e] //=.
case: (desired_torque c ori) => [t|e] //=.
case: (opspace_matrices _ _ _ _) => [[[[lf lp] lo] N]|e] //=.
by case: (J_full (model c)) => [Jf|].
Qed.

Lemma resolve_position_uncoupling b c :
  resolve_position (set_uncoupling b c)
    = (set_uncoupling b (resolve_position c).1, (resolve_position c).2).
Proof.
rewrite /resolve_position /bind /=.
case: (interpolator_pos c) => [ip|] //=.
by case: ifP => _; case: (get_interpolated_goal _ _).
Qed.

Lemma resolve_orientation_uncoupling b c :
  resolve_orientation (set_uncoupling b c)
    = (set_uncoupling b (resolve_orientation c).1,
       (resolve_orientation c).2).
Proof.
rewrite /resolve_orientation /bind /=.
case: (interpolator_ori c) => [io|] //=.
by case: (get_interpolated_goal _ _) => res io' /=; case: ifP.
Qed.

Lemma posture_step_uncoupling b N c :
  posture_step N (set_uncoupling b c)
    = (set_uncoupling b (posture_step N c).1, (posture_step N c).2).
Proof.
rewrite /posture_step /bind /=.
case: (torques c) => [t0|] //=.
by case: (nullspace_torques _ _ _ _ _ _ _).
Qed.

Lemma task_torques_from_uncoupling b pos ori c M Jf Jp Jo :
  mass_matrix (model c) = Some M -> J_full (model c) = Some Jf ->
  J_pos (model c) = Some Jp -> J_ori (model c) = Some Jo ->
  opspace_inertia M Jf
    = block_mx (opspace_inertia M Jp) 0 0 (opspace_inertia M Jo) ->
  task_torques_from pos ori (set_uncoupling b c)
    = (set_uncoupling b (task_torques_from pos ori c).1,
       (task_torques_from pos ori c).2).
Proof.
move=> HM HJf HJp HJo Hblock; rewrite !task_torques_fromE.
have -> : desired_force (set_uncoupling b c) pos = desired_force c pos by [].
have -> : desired_torque (set_uncoupling b c) ori = desired_torque c ori by [].
rewrite [model (set_uncoupling b c)]/= HM HJf HJp HJo /=.
case: (desired_force c pos) => [f|e] //=.
case: (desired_torque c ori) => [t|e] //=.
by rewrite (decoupled_wrench_block b (uncoupling c) _ _ Hblock).
Qed.

Lemma run_controller_uncoupling b c M Jf Jp Jo :
  mass_matrix (model c) = Some M -> J_full (model c) = Some Jf ->
  J_pos (model c) = Some Jp -> J_ori (model c) = Some Jo ->
  opspace_inertia M Jf
    = block_mx (opspace_inertia M Jp) 0 0 (opspace_inertia M Jo) ->
  run_controller (set_uncoupling b c)
    = (set_uncoupling b (run_controller c).1, (run_controller c).2).
Proof.
move=> HM HJf HJp HJo Hblock.
rewrite !run_controller_steps resolve_position_uncoupling.
have Hm1 := @resolve_position_frame _ (@model F n Interp) _ c.
case: (resolve_position c) Hm1 => c1 [pos|e] //= Hm1.
rewrite resolve_orientation_uncoupling.
have Hm2 : model (resolve_orientation c1).1 = model c1.
  by rewrite /resolve_orientation; move: c1 {Hm1}; frame.
case: (resolve_orientation c1) Hm2 => c2 [ori|e] //= Hm2.
have Hm : model c2 = model c by rewrite Hm2 Hm1.
rewrite /bind (@task_torques_from_uncoupling b pos ori c2 M Jf Jp Jo) ?Hm //.
case: (task_torques_from pos ori c2) => c3 [N|e] //=.
by rewrite posture_step_uncoupling; case: (posture_step N c3).
Qed.

(** C4: when the full operational-space inertia is block-diagonal, with
    Lambda_pos and Lambda_ori as its position and orientation blocks, the
    decoupled mode and the coupled mode produce the same wrench for every
    desired force and torque, and run_controller returns the same result,
    and caches the same torques, in both modes. *)
Theorem decoupled_equals_coupled_when_block_diagonal c M Jf Jp Jo :
  mass_matrix (model c) = Some M -> J_full (model c) = Some Jf ->
  J_pos (model c) = Some Jp -> J_ori (model c) = Some Jo ->
  opspace_inertia M Jf
    = block_mx (opspace_inertia M Jp) 0 0 (opspace_inertia M Jo) ->
  [/\ forall f t : 'cV[F]_3,
        col_mx (opspace_inertia M Jp *m f) (opspace_inertia M Jo *m t)
          = opspace_inertia M Jf *m col_mx f t,
      forall f t : 'cV[F]_3,
        decoupled_wrench true (opspace_inertia M Jf) (opspace_inertia M Jp)
          (opspace_inertia M Jo) f t
        = decoupled_wrench false (opspace_inertia M Jf)
            (opspace_inertia M Jp) (opspace_inertia M Jo) f t,
      (run_controller (set_uncoupling true c)).2
        = (run_controller (set_uncoupling false c)).2
    & torques (run_controller (set_uncoupling true c)).1
        = torques (run_controller (set_uncoupling false c)).1].
Proof.
move=> HM HJf HJp HJo Hblock.
have W f t := decoupled_wrench_block true false f t Hblock.
split=> //.
- by rewrite !(run_controller_uncoupling _ HM HJf HJp HJo Hblock).
- by rewrite !(run_controller_uncoupling _ HM HJf HJp HJo Hblock).
Qed.

End ControllerFacts.

(* --------------------------------------------------------------------- *)
(* The end-to-end scenario                                               *)
(* --------------------------------------------------------------------- *)

(** C1: for a 7-joint state with the identity as mass matrix, a full-rank
    6 x 7 Jacobian, the end effector on its goal pose, all joint and
    end-effector velocities zero, no interpolators and posture_gain = 0,
    run_controller returns exactly the torque compensation of the state
    provider (and caches it). *)
Theorem run_controller_feedthrough
    (F : fieldType) (sqrtF : F -> F)
    (orientation_error : 'M[F]_3 -> 'M[F]_3 -> 'cV[F]_3)
    (Interp : Type) (order : Interp -> nat)
    (get_interpolated_goal : Interp -> 'cV[F]_3 -> seq F * Interp)
    (c : Controller F 7 Interp)
    (J : 'M[F]_(3 + 3, 7)) (Jp Jo : 'M[F]_(3, 7)) (q : 'cV[F]_7) :
  sqrtF 0 = 0 ->
  (forall R, orientation_error R R = 0) ->
  mass_matrix (model c) = Some 1%:M ->
  J_full (model c) = Some J -> \rank J = 6%N ->
  J_pos (model c) = Some Jp -> J_ori (model c) = Some Jo ->
  joint_pos (model c) = Some q -> joint_vel (model c) = Some 0 ->
  size (goal_posture c) = 7%N ->
  interpolator_pos c = None -> interpolator_ori c = None ->
  goal_pos c = ee_pos (model c) -> goal_ori c = ee_ori_mat (model c) ->
  ee_pos_vel (model c) = 0 -> ee_ori_vel (model c) = 0 ->
  posture_gain c = 0 ->
  run_controller sqrtF orientation_error order get_interpolated_goal c
    = (set_torques (Some (torque_compensation (model c))) c,
       Ok (torque_compensation (model c))).
Proof.
move=> s0 oe0 HM HJ _ HJp HJo Hq Hqd Hsz Hip Hio Hgp Hgo Hv Hw Hg.
by apply: (@run_controller_at_goal F 7 sqrtF orientation_error Interp order
             get_interpolated_goal c 1%:M J Jp Jo q 0).
Qed.


(* --------------------------------------------------------------------- *)
(* Construction                                                          *)
(* --------------------------------------------------------------------- *)

Section ConstructionFacts.

Variable F : fieldType.
Variable n : nat.
Variable sqrtF : F -> F.
Variable orientation_error : 'M[F]_3 -> 'M[F]_3 -> 'cV[F]_3.
Variable Interp : Type.
Variable default_posture_gain : F.
Variable BaseArgs : Type.
Variable base_init :
  Model F n -> BaseArgs -> F -> seq F -> result (Controller F n Interp).

Local Notation _compile_jit_functions :=
  (@_compile_jit_functions F n sqrtF orientation_error Interp
     default_posture_gain).
Local Notation __init__ :=
  (@__init__ F n sqrtF orientation_error Interp default_posture_gain
     BaseArgs base_init).

(** The base constructor keeps the robot model it is given as self.model
    and leaves goal_posture as the derived constructor set it. *)
Hypothesis base_init_self :
  forall rm args g p c,
    base_init rm args g p = Ok c -> model c = rm /\ goal_posture c = p.

Lemma compile_jit_functions_ok (c : Controller F n Interp) :
  is_ok (_compile_jit_functions c)
    = complete (model c) && (size (goal_posture c) == n).
Proof.
rewrite /_compile_jit_functions /complete /opspace_matrices
  /nullspace_torques.
case: (mass_matrix _) => [M|] //=.
case: (J_full _) => [Jf|] //=.
case: (J_pos _) => [Jp|] //=.
case: (J_ori _) => [Jo|] //=.
case: (joint_pos _) => [q|] //=.
case: (joint_vel _) => [qd|] //=.
by case: ifP.
Qed.

(** C10: construction runs the pre-warm step on the object the base
    constructor returns; it succeeds only when the robot model carries all
    of mass matrix, the three Jacobians, joint positions and joint
    velocities and the posture has one entry per joint, and it raises as
    soon as one of these readings is absent. *)
Theorem init_requires_complete_state rm args g p :
  [/\ __init__ rm args g p
        = rbind (base_init rm args g p)
            (fun c => rbind (_compile_jit_functions c) (fun _ => Ok c)),
      forall c, __init__ rm args g p = Ok c ->
        [/\ _compile_jit_functions c = Ok tt, complete rm & size p = n]
    & ~~ complete rm -> exists e, __init__ rm args g p = Raise e].
Proof.
split=> //.
- move=> c; rewrite /__init__.
  case E: (base_init rm args g p) => [c0|e] //=.
  have [Hm Hp] := base_init_self E.
  have := compile_jit_functions_ok c0.
  case E2: (_compile_jit_functions c0) => [[]|e] //=; rewrite Hm Hp.
  by move=> /esym /andP [Hc /eqP Hs] [<-].
- move=> Hc; rewrite /__init__.
  case E: (base_init rm args g p) => [c0|e] /=; last by exists e.
  have [Hm Hp] := base_init_self E.
  have := compile_jit_functions_ok c0.
  rewrite Hm (negbTE Hc) /=.
  by case: (_compile_jit_functions c0) => [[]|e] //= _; exists e.
Qed.

End ConstructionFacts.

(* --------------------------------------------------------------------- *)
(* The cycle: what it reads, what it writes                              *)
(* --------------------------------------------------------------------- *)

Section CycleFacts.

Variable F : fieldType.
Variable n : nat.
Variable sqrtF : F -> F.
Variable orientation_error : 'M[F]_3 -> 'M[F]_3 -> 'cV[F]_3.
Variable Interp : Type.
Variable order : Interp -> nat.
Variable get_interpolated_goal : Interp -> 'cV[F]_3 -> seq F * Interp.

Local Notation controller := (Controller F n Interp).
Local Notation resolve_position :=
  (@resolve_position F n Interp order get_interpolated_goal).
Local Notation resolve_orientation :=
  (@resolve_orientation F n orientation_error Interp order
     get_interpolated_goal).
Local Notation task_torques :=
  (@task_torques F n orientation_error Interp order get_interpolated_goal).
Local Notation posture_step := (@posture_step F n sqrtF Interp).
Local Notation run_controller :=
  (@run_controller F n sqrtF orientation_error Interp order
     get_interpolated_goal).
Local Notation tail pos ori :=
  (nm <-- task_torques_from pos ori ;; posture_step nm).

Implicit Types (c : controller) (pos ori : reference F).

(* ---- the state after the two reference steps ------------------------- *)

Lemma resolve_position_state c :
  (resolve_position c).1
    = set_interpolator_pos
        (omap (fun ip => (get_interpolated_goal ip (ee_pos (model c))).2)
           (interpolator_pos c)) c.
Proof.
case: c => pg gp mo kp kv ip io un gpos gori oref rel fl tq.
rewrite /resolve_position /bind /=.
case: ip => [ip|] //=.
by case: ifP => _; case: (get_interpolated_goal _ _).
Qed.

Lemma resolve_orientation_state c :
  exists r b,
    (resolve_orientation c).1
      = set_ori_interpolate_started b
          (set_interpolator_ori
             (omap (fun io =>
                      (get_interpolated_goal io
                         (orientation_error (ee_ori_mat (model c))
                            (ori_ref c))).2)
                (interpolator_ori c))
             (set_relative_ori r c)).
Proof.
case: c => pg gp mo kp kv ip io un gpos gori oref rel fl tq.
rewrite /resolve_orientation /bind /=.
case: io => [io|] /=; last by exists rel, fl.
case: (get_interpolated_goal _ _) => res io' /=.
by case: ifP => _ /=; eexists _, _.
Qed.

Lemma tail_state pos ori c :
  exists t, (tail pos ori c).1 = set_torques t c.
Proof.
case: c => pg gp mo kp kv ip io un gpos gori oref rel fl tq.
set c := mkController _ _ _ _ _ _ _ _ _ _ _ _ _ _.
rewrite /bind; case E: (task_torques_from pos ori c) => [c1 [N|e]] /=.
- have [Jf [w [_ ->]]] := task_torques_from_return E.
  case E2: (posture_step _ _) => [c2 [tau|e]] /=.
  + by have [t0 [nt [_ _ _ ->]]] := posture_step_return E2; eexists.
  + by rewrite (posture_step_raise E2); eexists.
- by rewrite (task_torques_from_raise E); exists tq.
Qed.

(* ---- what each step reads -------------------------------------------- *)

Lemma resolve_position_reads c1 c2 :
  interpolator_pos c1 = interpolator_pos c2 ->
  ee_pos (model c1) = ee_pos (model c2) ->
  goal_pos c1 = goal_pos c2 ->
  (resolve_position c1).2 = (resolve_position c2).2.
Proof.
rewrite /resolve_position /bind /= => -> -> ->.
case: (interpolator_pos c2) => [ip|] //=.
by case: ifP => _; case: (get_interpolated_goal _ _).
Qed.

Lemma resolve_orientation_reads c1 c2 :
  interpolator_ori c1 = interpolator_ori c2 ->
  ee_ori_mat (model c1) = ee_ori_mat (model c2) ->
  ori_ref c1 = ori_ref c2 ->
  goal_ori c1 = goal_ori c2 ->
  (resolve_orientation c1).2 = (resolve_orientation c2).2.
Proof.
rewrite /resolve_orientation /bind /= => -> -> -> ->.
case: (interpolator_ori c2) => [io|] //=.
by case: (get_interpolated_goal _ _) => res io' /=; case: ifP.
Qed.

Lemma desired_force_reads c1 c2 pos :
  model c1 = model c2 -> kp c1 = kp c2 -> kv c1 = kv c2 ->
  desired_force c1 pos = desired_force c2 pos.
Proof. by rewrite /desired_force => -> -> ->. Qed.

Lemma desired_torque_reads c1 c2 ori :
  model c1 = model c2 -> kp c1 = kp c2 -> kv c1 = kv c2 ->
  desired_torque c1 ori = desired_torque c2 ori.
Proof. by rewrite /desired_torque => -> -> ->. Qed.

Lemma tail_reads pos1 ori1 pos2 ori2 c1 c2 :
  posture_gain c1 = posture_gain c2 -> goal_posture c1 = goal_posture c2 ->
  model c1 = model c2 -> uncoupling c1 = uncoupling c2 ->
  desired_force c1 pos1 = desired_force c2 pos2 ->
  desired_torque c1 ori1 = desired_torque c2 ori2 ->
  (tail pos1 ori1 c1).2 = (tail pos2 ori2 c2).2.
Proof.
move=> Hg Hp Hm Hu Hf Ht; rewrite /bind !task_torques_fromE Hf Ht Hm Hu.
case: (desired_force c2 pos2) => [f|e] //=.
case: (desired_torque c2 ori2) => [t|e] //=.
case: (opspace_matrices _ _ _ _) => [[[[lf lp] lo] N]|e] //=.
case: (J_full (model c2)) => [Jf|] //=.
rewrite /posture_step /bind /= Hg Hp Hm.
by case: (nullspace_torques _ _ _ _ _ _ _).
Qed.

(** The outcome of a cycle is a function of the eleven attributes below:
    the cached torques, relative_ori and ori_interpolate_started are never
    read before they are written. *)
Lemma run_controller_reads c1 c2 :
  posture_gain c1 = posture_gain c2 -> goal_posture c1 = goal_posture c2 ->
  model c1 = model c2 -> kp c1 = kp c2 -> kv c1 = kv c2 ->
  interpolator_pos c1 = interpolator_pos c2 ->
  interpolator_ori c1 = interpolator_ori c2 ->
  uncoupling c1 = uncoupling c2 ->
  goal_pos c1 = goal_pos c2 -> goal_ori c1 = goal_ori c2 ->
  ori_ref c1 = ori_ref c2 ->
  (run_controller c1).2 = (run_controller c2).2.
Proof.
move=> Hg Hp Hm Hkp Hkv Hip Hio Hu Hgp Hgo Hrf.
rewrite !run_controller_steps.
have := resolve_position_reads Hip (congr1 _ Hm) Hgp.
have := resolve_position_state c1; have := resolve_position_state c2.
case: (resolve_position c1) => c1' r1; case: (resolve_position c2) => c2' r2.
move=> /= -> -> <-; case: r1 => [pos|e] //=.
set d1 := set_interpolator_pos _ c1; set d2 := set_interpolator_pos _ c2.
have := @resolve_orientation_reads d1 d2 Hio (congr1 _ Hm) Hrf Hgo.
have [ra [ba]] := resolve_orientation_state d1.
have [rb [bb]] := resolve_orientation_state d2.
case: (resolve_orientation d1) => c1'' s1.
case: (resolve_orientation d2) => c2'' s2.
move=> /= -> -> <-; case: s1 => [ori|e] //=.
apply: tail_reads => //.
- exact: desired_force_reads.
- exact: desired_torque_reads.
Qed.

(* ---- when the cycle returns ------------------------------------------ *)

Lemma is_ok_broadcast3 (s : seq F) :
  is_ok (broadcast 3 s) = (size s == 3%N) || (size s == 1%N).
Proof. by rewrite /broadcast; case: ifP => //= _; case: ifP. Qed.

Lemma desired_force_ok c (a b d : operand F) :
  is_ok (desired_force c (a, b, d))
    = [&& is_ok (to_vec a), is_ok (to_vec b) & is_ok (to_vec d)].
Proof.
rewrite /desired_force.
by case: (to_vec a) => [?|?] //=; case: (to_vec b) => [?|?] //=;
   case: (to_vec d).
Qed.

Lemma desired_torque_ok c (a b d : operand F) :
  is_ok (desired_torque c (a, b, d))
    = [&& is_ok (to_vec a), is_ok (to_vec b) & is_ok (to_vec d)].
Proof.
rewrite /desired_torque.
by case: (to_vec a) => [?|?] //=; case: (to_vec b) => [?|?] //=;
   case: (to_vec d) => [?|?] //=; rewrite ?andbF.
Qed.

(** The three slices [0:3], [3:6] and [6:] all fit a 3-vector exactly when
    the array has 7 or 9 entries. *)
Lemma segments_ok (res : seq F) :
  [&& is_ok (broadcast 3 (take 3 res)),
      is_ok (broadcast 3 (take 3 (drop 3 res)))
    & is_ok (broadcast 3 (drop 6 res))]
  = (size res == 7%N) || (size res == 9%N).
Proof.
rewrite !is_ok_broadcast3 !size_take !size_drop.
by case: (size res) => [|[|[|[|[|[|[|[|[|[|L]]]]]]]]]].
Qed.

(** The slice [0:3] alone fits when the array has one entry or at least
    three. *)
Lemma head_segment_ok (res : seq F) :
  is_ok (broadcast 3 (take 3 res)) = (2 < size res)%N || (size res == 1%N).
Proof.
rewrite is_ok_broadcast3 size_take.
by case: (size res) => [|[|[|[|L]]]].
Qed.

Lemma tail_ok pos ori c :
  is_ok (tail pos ori c).2
    = [&& is_ok (desired_force c pos), is_ok (desired_torque c ori),
          complete (model c) & size (goal_posture c) == n].
Proof.
rewrite /bind task_torques_fromE /complete.
case: (desired_force c pos) => [f|e] //=.
case: (desired_torque c ori) => [t|e] //=.
rewrite /opspace_matrices.
case EM: (mass_matrix (model c)) => [M|] //=.
case: (J_full (model c)) => [Jf|] //=.
case: (J_pos (model c)) => [Jp|] //=.
case: (J_ori (model c)) => [Jo|] //=.
rewrite /posture_step /bind /= /nullspace_torques EM.
case: (joint_pos (model c)) => [q|] //=.
case: (joint_vel (model c)) => [qd|] //=.
by case: ifP.
Qed.

(** A missing mass matrix or Jacobian stops lines 122-145 before the
    assignment of self.torques. *)
Lemma tail_absent pos ori c :
  ~~ [&& isSome (mass_matrix (model c)), isSome (J_full (model c)),
         isSome (J_pos (model c)) & isSome (J_ori (model c))] ->
  exists e, tail pos ori c = (c, Raise e).
Proof.
rewrite /bind task_torques_fromE /opspace_matrices.
case: (desired_force c pos) => [f|e] /=; last by exists e.
case: (desired_torque c ori) => [t|e] /=; last by exists e.
case: (mass_matrix (model c)) => [M|] /=; last by exists AbsentReading.
case: (J_full (model c)) => [Jf|] /=; last by exists AbsentReading.
case: (J_pos (model c)) => [Jp|] /=; last by exists AbsentReading.
by case: (J_ori (model c)) => [Jo|] //=; exists AbsentReading.
Qed.

Lemma posture_stepE N c :
  posture_step N c =
  match torques c with
  | None => (c, Raise AbsentReading)
  | Some t0 =>
      match nullspace_torques sqrtF (mass_matrix (model c)) N
              (goal_posture c) (joint_pos (model c)) (joint_vel (model c))
              (posture_gain c) with
      | Ok nt => (set_torques (Some (t0 + nt)) c, Ok (t0 + nt))
      | Raise e => (c, Raise e)
      end
  end.
Proof.
rewrite /posture_step /bind /=.
by case: (torques c).
Qed.

Lemma tailE pos ori c :
  tail pos ori c =
  match task_torques_from pos ori c with
  | (c1, Ok N) => posture_step N c1
  | (c1, Raise e) => (c1, Raise e)
  end.
Proof. by rewrite /bind; case: (task_torques_from pos ori c) => c1 []. Qed.

(** Lines 122-155 run a second time on the state they left give the same
    outcome and the same state. *)
Lemma tail_twice pos ori c :
  tail pos ori (tail pos ori c).1 = tail pos ori c.
Proof.
have Hf t : desired_force (set_torques t c) pos = desired_force c pos by [].
have Ht t : desired_torque (set_torques t c) ori = desired_torque c ori.
  by [].
rewrite [in RHS]tailE [in X in tail _ _ X]tailE task_torques_fromE.
case Ef: (desired_force c pos) => [f|e] /=; last first.
  by rewrite tailE task_torques_fromE Ef.
case Et: (desired_torque c ori) => [t|e] /=; last first.
  by rewrite tailE task_torques_fromE Ef Et.
case Eo: (opspace_matrices _ _ _ _) => [[[[lf lp] lo] N]|e] /=; last first.
  by rewrite tailE task_torques_fromE Ef Et Eo.
case EJ: (J_full (model c)) => [Jf|] /=; last first.
  by rewrite tailE task_torques_fromE Ef Et Eo EJ.
rewrite !posture_stepE /=.
case En: (nullspace_torques _ _ _ _ _ _ _) => [nt|e] /=.
- rewrite tailE task_torques_fromE Hf Ht Ef Et /= Eo EJ /=.
  by rewrite posture_stepE /= En.
- rewrite tailE task_torques_fromE Hf Ht Ef Et /= Eo EJ /=.
  by rewrite posture_stepE /= En.
Qed.

(** Lines 95-102 with a position interpolator attached. *)
Lemma resolve_position_attached c ip :
  interpolator_pos c = Some ip ->
  let res := (get_interpolated_goal ip (ee_pos (model c))).1 in
  let ip' := (get_interpolated_goal ip (ee_pos (model c))).2 in
  resolve_position c =
    (set_interpolator_pos (Some ip') c,
     Ok (if order ip == 4%N then
           (Dynamic (take 3 res), Dynamic (take 3 (drop 3 res)),
            Dynamic (drop 6 res))
         else (Dynamic res, Fixed 0, Fixed 0))).
Proof.
rewrite /resolve_position /bind /= => ->.
by case: ifP => _; case: (get_interpolated_goal _ _).
Qed.


(* ---- properties of the cycle ----------------------------------------- *)

(** X1: the torque a cycle returns is the one it leaves in self.torques
    (lines 146-155). *)
Theorem run_controller_caches_result c c' tau :
  run_controller c = (c', Ok tau) -> torques c' = Some tau.
Proof.
rewrite /run_controller /bind.
case: (task_torques c) => c1 [N|e] //=.
by case/posture_step_return => t0 [nt [_ _ _ ->]].
Qed.

(** X2: a cycle never writes the configuration: posture_gain,
    goal_posture, the reference to the model, the gains kp and kv and the
    coupling flag are after the call what they were before, whether the
    call returns or raises. *)
Theorem run_controller_keeps_configuration c :
  let c' := (run_controller c).1 in
  [/\ posture_gain c' = posture_gain c,
      goal_posture c' = goal_posture c
    & model c' = model c]
  /\ [/\ kp c' = kp c, kv c' = kv c & uncoupling c' = uncoupling c].
Proof.
have frame_of (B : Type) (p : controller -> B) :
    (forall ip d, p (set_interpolator_pos ip d) = p d) ->
    (forall r d, p (set_relative_ori r d) = p d) ->
    (forall io d, p (set_interpolator_ori io d) = p d) ->
    (forall b d, p (set_ori_interpolate_started b d) = p d) ->
    (forall t d, p (set_torques t d) = p d) ->
    preserves p run_controller.
  by move=> H1 H2 H3 H4 H5; unfold_cycle; frame.
by split; split; apply: frame_of.
Qed.

(** X3: the outcome of a cycle does not depend on the cached torques, on
    relative_ori or on ori_interpolate_started: lines 108 and 145 write
    the first two before anything reads them, and nothing reads the flag. *)
Theorem run_controller_ignores_cached c t r b :
  (run_controller
     (set_torques t (set_relative_ori r (set_ori_interpolate_started b c)))).2
  = (run_controller c).2.
Proof. exact: run_controller_reads. Qed.

(** X4: with no interpolators attached a cycle is idempotent: run again on
    the state it left (the model unchanged) it gives the same outcome and
    leaves the same state. *)
Theorem run_controller_static_idempotent c :
  interpolator_pos c = None -> interpolator_ori c = None ->
  run_controller (run_controller c).1 = run_controller c.
Proof.
move=> Hip Hio.
rewrite [run_controller c]run_controller_steps resolve_position_static //.
rewrite resolve_orientation_static //.
set pos := (Fixed (goal_pos c), _, _); set ori := (Fixed _, _, _).
have [t Hs] := tail_state pos ori c.
have Hip' : interpolator_pos (tail pos ori c).1 = None by rewrite Hs.
have Hio' : interpolator_ori (tail pos ori c).1 = None by rewrite Hs.
rewrite run_controller_steps resolve_position_static //.
rewrite resolve_orientation_static //.
have -> : goal_pos (tail pos ori c).1 = goal_pos c by rewrite Hs.
have -> : goal_ori (tail pos ori c).1 = goal_ori c by rewrite Hs.
have -> : model (tail pos ori c).1 = model c by rewrite Hs.
by rewrite -/pos -/ori tail_twice.
Qed.

(** X5: when the mass matrix or one of the three Jacobians is absent the
    cycle raises, in every mode, and the cached torques are left as they
    were: line 145 is not reached. *)
Theorem run_controller_absent_kernel_reading c :
  ~~ [&& isSome (mass_matrix (model c)), isSome (J_full (model c)),
         isSome (J_pos (model c)) & isSome (J_ori (model c))] ->
  (exists e, (run_controller c).2 = Raise e) /\
  torques (run_controller c).1 = torques c.
Proof.
move=> Habs; rewrite run_controller_steps.
have := resolve_position_state c.
case: (resolve_position c) => c1 [pos|e] /= ->; last by split; first exists e.
set d := set_interpolator_pos _ c.
have [r [b]] := resolve_orientation_state d.
case: (resolve_orientation d) => c2 [ori|e] /= ->; last first.
  by split; first exists e.
set d2 := set_ori_interpolate_started _ _.
have [e ->] : exists e, tail pos ori d2 = (d2, Raise e).
  exact: tail_absent.
by split; first exists e.
Qed.

(** A cycle that returns has passed opspace_matrices and
    nullspace_torques. *)
Lemma returning_cycle_complete c :
  is_ok (run_controller c).2 ->
  complete (model c) && (size (goal_posture c) == n).
Proof.
rewrite run_controller_steps.
have := resolve_position_state c.
case: (resolve_position c) => c1 [pos|e] //= ->.
set d := set_interpolator_pos _ c.
have [r [b]] := resolve_orientation_state d.
case: (resolve_orientation d) => c2 [ori|e] //= ->.
by rewrite tail_ok => /and4P [_ _ -> ->].
Qed.

(** X6: in every mode, run_controller returns a torque only if the model
    carries mass matrix, the three Jacobians, joint positions and joint
    velocities and the posture has one entry per joint: with any of them
    missing the cycle raises. *)
Theorem run_controller_returns_only_if_complete c :
  is_ok (run_controller c).2 ->
  complete (model c) /\ size (goal_posture c) = n.
Proof. by move/returning_cycle_complete => /andP [-> /eqP]. Qed.

Lemma resolve_orientation_returns c :
  exists ori, (resolve_orientation c).2 = Ok ori.
Proof.
rewrite /resolve_orientation /bind /=.
case: (interpolator_ori c) => [io|] /=; last by eexists.
by case: (get_interpolated_goal _ _) => res io' /=; case: ifP; eexists.
Qed.

(** X7: every cycle advances each attached interpolator by exactly one
    call of get_interpolated_goal (the position one on the end-effector
    position, the orientation one on the relative orientation error), and
    keeps the advanced interpolator also when the cycle raises later. *)
Theorem run_controller_advances_interpolators c :
  interpolator_pos (run_controller c).1
    = omap (fun ip => (get_interpolated_goal ip (ee_pos (model c))).2)
        (interpolator_pos c)
  /\
  interpolator_ori (run_controller c).1
    = omap (fun io =>
              (get_interpolated_goal io
                 (orientation_error (ee_ori_mat (model c)) (ori_ref c))).2)
        (interpolator_ori c).
Proof.
rewrite run_controller_steps.
have := resolve_position_state c.
have [pos] := resolve_position_returns order get_interpolated_goal c.
case: (resolve_position c) => c1 r1 /= -> ->.
set d := set_interpolator_pos _ c.
have [r [b]] := resolve_orientation_state d.
have [ori] := resolve_orientation_returns d.
case: (resolve_orientation d) => c2 r2 /= -> ->.
set d2 := set_ori_interpolate_started _ _.
by have [t ->] := tail_state pos ori d2.
Qed.

(** X8: with a position interpolator attached (and nothing else in the way:
    no orientation interpolator, a complete model, a posture of the joint
    count) the cycle returns exactly when the array the interpolator gives
    has 7 or 9 entries for order 4, and 3 or 1 entries for any other order;
    every other length raises. *)
Theorem run_controller_position_result_length c ip :
  interpolator_pos c = Some ip -> interpolator_ori c = None ->
  complete (model c) -> size (goal_posture c) = n ->
  let res := (get_interpolated_goal ip (ee_pos (model c))).1 in
  is_ok (run_controller c).2
    = if order ip == 4%N then (size res == 7%N) || (size res == 9%N)
      else (size res == 3%N) || (size res == 1%N).
Proof.
move=> Hip Hio Hc Hsz /=.
rewrite run_controller_steps (resolve_position_attached Hip) /=.
rewrite resolve_orientation_static //.
case: ifP => _; rewrite tail_ok desired_force_ok desired_torque_ok.
- by rewrite [complete _]Hc /= Hsz eqxx !andbT segments_ok.
- by rewrite [complete _]Hc /= Hsz eqxx !andbT is_ok_broadcast3.
Qed.

(** X9: with an orientation interpolator attached (no position
    interpolator, a complete model, a posture of the joint count) the cycle
    returns exactly when the array the interpolator gives has 7 or 9
    entries for order 4; for any other order one entry or at least three
    are accepted, the entries after the third being ignored. *)
Theorem run_controller_orientation_result_length c io :
  interpolator_pos c = None -> interpolator_ori c = Some io ->
  complete (model c) -> size (goal_posture c) = n ->
  let rel := orientation_error (ee_ori_mat (model c)) (ori_ref c) in
  let res := (get_interpolated_goal io rel).1 in
  let io' := (get_interpolated_goal io rel).2 in
  is_ok (run_controller c).2
    = if order io' == 4%N then (size res == 7%N) || (size res == 9%N)
      else (2 < size res)%N || (size res == 1%N).
Proof.
move=> Hip Hio Hc Hsz /=.
rewrite run_controller_steps resolve_position_static //.
rewrite (@resolve_orientation_attached _ _ orientation_error _ order
           get_interpolated_goal c io Hio) /=.
case: ifP => _; rewrite tail_ok desired_force_ok desired_torque_ok.
- by rewrite [complete _]Hc /= Hsz eqxx !andbT segments_ok.
- by rewrite [complete _]Hc /= Hsz eqxx !andbT head_segment_ok.
Qed.

(** X10: interpolation degenerates to direct goal tracking: when the
    position interpolator gives the stored goal position (with zero
    velocity and acceleration segments for order 4), the cycle has the
    outcome it has with no position interpolator attached. *)
Theorem run_controller_interpolated_static_goal c ip :
  interpolator_pos c = Some ip ->
  let res := (get_interpolated_goal ip (ee_pos (model c))).1 in
  (if order ip == 4%N then
     [/\ broadcast 3 (take 3 res) = Ok (goal_pos c),
         broadcast 3 (take 3 (drop 3 res)) = Ok 0
       & broadcast 3 (drop 6 res) = Ok 0]
   else broadcast 3 res = Ok (goal_pos c)) ->
  (run_controller c).2 = (run_controller (set_interpolator_pos None c)).2.
Proof.
move=> Hip /= Hres.
rewrite !run_controller_steps.
rewrite [resolve_position (set_interpolator_pos None c)]
          resolve_position_static //.
rewrite (resolve_position_attached Hip) [goal_pos _]/=.
set d1 := set_interpolator_pos (Some _) c.
set d2 := set_interpolator_pos None c.
have := @resolve_orientation_reads d1 d2 erefl erefl erefl erefl.
have [ra [ba]] := resolve_orientation_state d1.
have [rb [bb]] := resolve_orientation_state d2.
case: (resolve_orientation d1) => c1 s1.
case: (resolve_orientation d2) => c2 s2.
move=> /= -> -> <-; case: s1 => [ori|e] //=.
apply: tail_reads => //.
rewrite /desired_force /=.
case: ifP Hres => _; last by move=> /= ->.
by case=> /= -> -> ->.
Qed.


(** X15: a cycle never clears ori_interpolate_started: once the flag is
    set it stays set, in every mode and whether the cycle returns or
    raises (line 116 is the only write, and it writes True). *)
Theorem run_controller_never_clears_flag c :
  ori_interpolate_started c ->
  ori_interpolate_started (run_controller c).1.
Proof.
move=> Hfl.
have := run_controller_orientation_attrs sqrtF orientation_error order
          get_interpolated_goal c.
case: (interpolator_ori c) => [io|] /=; last by case=> _ ->.
by case=> _ -> _; rewrite Hfl orbT.
Qed.


End CycleFacts.

(* --------------------------------------------------------------------- *)
(* The pre-warm step and the cycle                                       *)
(* --------------------------------------------------------------------- *)

Section PrewarmFacts.

Variable F : fieldType.
Variable n : nat.
Variable sqrtF : F -> F.
Variable orientation_error : 'M[F]_3 -> 'M[F]_3 -> 'cV[F]_3.
Variable Interp : Type.
Variable order : Interp -> nat.
Variable get_interpolated_goal : Interp -> 'cV[F]_3 -> seq F * Interp.
Variable default_posture_gain : F.

Local Notation run_controller :=
  (@run_controller F n sqrtF orientation_error Interp order
     get_interpolated_goal).
Local Notation _compile_jit_functions :=
  (@_compile_jit_functions F n sqrtF orientation_error Interp
     default_posture_gain).

(** X13: the pre-warm step asks for nothing a cycle does not ask for: on
    every controller on which run_controller returns a torque (in any
    mode), _compile_jit_functions returns as well; in other words, a
    controller on which the pre-warm raises raises in every cycle. *)
Theorem run_controller_returns_only_if_prewarm (c : Controller F n Interp) :
  is_ok (run_controller c).2 -> is_ok (_compile_jit_functions c).
Proof.
by move/returning_cycle_complete; rewrite compile_jit_functions_ok.
Qed.

End PrewarmFacts.

(* --------------------------------------------------------------------- *)
(* The seven-joint arm                                                   *)
(* --------------------------------------------------------------------- *)

Import Arm7.

Local Notation run7 :=
  (@run_controller rat (3 + 3 + 1) heron_sqrt skew_orientation_error
     table_interp table_order table_get).

Lemma heron_sqrt0 : heron_sqrt 0 = 0.
Proof. by rewrite /heron_sqrt eqxx. Qed.

Lemma gram_entry_sym (R1 R2 : 'M[rat]_3) (a b : 'I_3) :
  (R1 *m R2^T) a b = (R2 *m R1^T) b a.
Proof.
have S : (R1 *m R2^T)^T = R2 *m R1^T by rewrite trmx_mul trmxK.
by rewrite -S [RHS]mxE.
Qed.

Lemma skew_orientation_error_id (R : 'M[rat]_3) :
  skew_orientation_error R R = 0.
Proof.
apply/colP => i; rewrite /skew_orientation_error mxE [skew_vee _ _ _]mxE.
by rewrite (gram_entry_sym R R (i + 1)) subrr mulr0 mxE.
Qed.

Lemma skew_orientation_error_swap (R1 R2 : 'M[rat]_3) :
  skew_orientation_error R1 R2 = - skew_orientation_error R2 R1.
Proof.
apply/colP => i; rewrite /skew_orientation_error.
rewrite [RHS]mxE mxE [in RHS]mxE [skew_vee _ _ _]mxE [skew_vee _ _ _]mxE.
rewrite (gram_entry_sym R2 R1 (i + 1)) (gram_entry_sym R2 R1 (i + 2%:R)).
by rewrite -mulrN opprB.
Qed.

Lemma J0_gram : J0 *m J0^T = 1%:M.
Proof.
by rewrite /J0 tr_row_mx mul_row_col trmx1 trmx0 mulmx1 mul0mx addr0.
Qed.

Lemma J0_pos_gram : J0_pos *m J0_pos^T = 1%:M.
Proof.
by rewrite /J0_pos !tr_row_mx !mul_row_col trmx1 !trmx0 mulmx1 !mul0mx !addr0.
Qed.

Lemma J0_ori_gram : J0_ori *m J0_ori^T = 1%:M.
Proof.
rewrite /J0_ori !tr_row_mx !mul_row_col trmx1 !trmx0 mulmx1 !mul0mx.
by rewrite addr0 add0r.
Qed.

Lemma J0_full_rank : \rank J0 = (3 + 3)%N.
Proof. by apply/eqP/row_freeP; exists J0^T; apply: J0_gram. Qed.

Lemma opspace_inertia_J0 : opspace_inertia 1%:M J0 = 1%:M.
Proof. by rewrite /opspace_inertia invmx1 mulmx1 J0_gram regularized_inv1. Qed.

Lemma opspace_inertia_J0_pos : opspace_inertia 1%:M J0_pos = 1%:M.
Proof.
by rewrite /opspace_inertia invmx1 mulmx1 J0_pos_gram regularized_inv1.
Qed.

Lemma opspace_inertia_J0_ori : opspace_inertia 1%:M J0_ori = 1%:M.
Proof.
by rewrite /opspace_inertia invmx1 mulmx1 J0_ori_gram regularized_inv1.
Qed.

Lemma opspace_inertia_J0_block :
  opspace_inertia 1%:M J0
    = block_mx (opspace_inertia 1%:M J0_pos) 0 0 (opspace_inertia 1%:M J0_ori).
Proof.
rewrite opspace_inertia_J0 opspace_inertia_J0_pos opspace_inertia_J0_ori.
exact: scalar_mx_block.
Qed.

(* ---- the coupled mass matrix ----------------------------------------- *)

Lemma e0_norm : e0^T *m e0 = 1%:M.
Proof. by rewrite /e0 trmx_delta mul_delta_mx delta_mx_11. Qed.

Lemma e0_neq0 : e0 <> 0.
Proof.
move/matrixP/(_ 0 0); rewrite /e0 !mxE !eqxx /=.
by move/eqP; rewrite oner_eq0.
Qed.

Lemma coupled_massK : coupled_mass *m coupled_mass_inv = 1%:M.
Proof.
rewrite /coupled_mass /coupled_mass_inv mulmx_block.
rewrite mulmx1 mulNmx addrK.
rewrite mulmxDl mul1mx -mulmxA e0_norm mulmx1.
have two : (2%:R)%:M = 1%:M + 1%:M :> 'M[rat]_1.
  by rewrite -raddfD -mulr2n.
rewrite !mulNmx mul_mx_scalar scaler_nat mulr2n subrr.
rewrite mulmx1 mul1mx addNr e0_norm mul1mx two addrA addNr add0r.
by rewrite -scalar_mx_block.
Qed.


Lemma coupled_mass_invE : invmx coupled_mass = coupled_mass_inv.
Proof. by have [] := invmx_from_right coupled_massK. Qed.

Lemma coupled_mass_sym : coupled_mass^T = coupled_mass.
Proof.
rewrite /coupled_mass tr_block_mx linearD /= trmx1 trmx_mul trmxK.
by rewrite !linearN /= ?trmxK trmx1.
Qed.

Lemma gram_ge0 (k : nat) (z : 'cV[rat]_k) : 0 <= (z^T *m z) 0 0.
Proof.
rewrite mxE; apply: sumr_ge0 => i _.
by rewrite mxE -expr2 sqr_ge0.
Qed.

Lemma gram_gt0 (k : nat) (z : 'cV[rat]_k) : z != 0 -> 0 < (z^T *m z) 0 0.
Proof.
move=> z0; rewrite lt0r gram_ge0 andbT; apply: contra z0 => /eqP.
rewrite mxE => H; apply/eqP/colP => i.
have H0 : forall j : 'I_k, true -> 0 <= z^T 0 j * z j 0.
  by move=> j _; rewrite mxE -expr2 sqr_ge0.
have := @psumr_eq0P _ _ xpredT _ H0 H i isT.
by rewrite mxE -expr2 => /eqP; rewrite sqrf_eq0 => /eqP ->; rewrite mxE.
Qed.

Lemma coupled_mass_quadratic (u : 'cV[rat]_(3 + 3)) (v : 'cV[rat]_1) :
  (col_mx u v)^T *m coupled_mass *m col_mx u v
    = u^T *m u + (e0^T *m u - v)^T *m (e0^T *m u - v).
Proof.
rewrite tr_col_mx /coupled_mass mul_row_block mul_row_col.
rewrite !linearB /= trmx_mul trmxK.
rewrite ?mulmxDr ?mulmxDl ?mulmxBl ?mulmxBr ?mulmxN ?mulNmx ?mulmx1 ?mulmxA.
by rewrite opprB [- _ + _]addrC !addrA.
Qed.

(** coupled_mass is positive definite. *)
Lemma coupled_mass_posdef (x : 'cV[rat]_(3 + 3 + 1)) :
  x != 0 -> 0 < (x^T *m coupled_mass *m x) 0 0.
Proof.
rewrite -[x]vsubmxK col_mx_eq0 negb_and coupled_mass_quadratic mxE.
set u := usubmx x; set v := dsubmx x.
have [->|u0] /= := eqVneq u 0.
  rewrite !mulmx0 sub0r => v0; apply: ltr_wpDl; first by rewrite mxE.
  by rewrite gram_gt0 // oppr_eq0.
by move=> _; apply: ltr_pwDl (gram_ge0 _); apply: gram_gt0.
Qed.

Lemma J0_coupled_mass_inv : J0 *m invmx coupled_mass = row_mx 1%:M e0.
Proof.
rewrite coupled_mass_invE /J0 /coupled_mass_inv mul_row_block.
by rewrite !mul1mx !mul0mx !addr0.
Qed.

Lemma J0_coupled_gram : J0 *m invmx coupled_mass *m J0^T = 1%:M.
Proof.
rewrite J0_coupled_mass_inv /J0 tr_row_mx mul_row_col trmx1 trmx0.
by rewrite mulmx1 mulmx0 addr0.
Qed.

Lemma opspace_inertia_coupled : opspace_inertia coupled_mass J0 = 1%:M.
Proof. by rewrite /opspace_inertia J0_coupled_gram regularized_inv1. Qed.

(** The product as the spec displays it,  I - J^T . Lambda . J . M^-1
    (the transpose of N, coupled_mass being symmetric), is not annihilated
    by J:  J0 . N^T = (0 | - e0). *)
Lemma displayed_product_not_annihilated :
  J0 *m (nullspace_projector coupled_mass J0)^T = row_mx 0 (- e0)
  /\ J0 *m (nullspace_projector coupled_mass J0)^T <> 0.
Proof.
have E : J0 *m (nullspace_projector coupled_mass J0)^T = row_mx 0 (- e0).
  have U : J0 *m invmx coupled_mass *m J0^T \in unitmx.
    by rewrite J0_coupled_gram unitmx1.
  rewrite (nullspace_projector_tr coupled_mass_sym U).
  rewrite mulmxBr mulmx1 !mulmxA J0_gram.
  rewrite opspace_inertia_coupled !mul1mx J0_coupled_mass_inv /J0.
  by rewrite opp_row_mx add_row_mx subrr add0r.
split=> //; rewrite E => H.
have [_ /eqP] := eq_row_mx (etrans H (esym (row_mx0 _ _ _ _))).
by rewrite oppr_eq0 => /eqP; apply: e0_neq0.
Qed.

(* ---- instances -------------------------------------------------------- *)

(** The scenario of C1 on the arm at rest: the torque returned is the torque
    compensation (1, ..., 1). *)
Lemma run_controller_feedthrough_witness :
  run7 rest_controller
    = (set_torques (Some (const_mx 1)) rest_controller, Ok (const_mx 1)).
Proof.
exact: (@run_controller_feedthrough rat heron_sqrt skew_orientation_error
          table_interp table_order table_get rest_controller
          J0 J0_pos J0_ori 0 heron_sqrt0 skew_orientation_error_id
          erefl erefl J0_full_rank erefl erefl erefl erefl erefl erefl erefl
          erefl erefl erefl erefl erefl).
Defined.


(** C4 on the arm at rest, whose operational-space inertia is the identity:
    both modes return the same result. *)
Lemma decoupled_equals_coupled_witness :
  (run7 (set_uncoupling true rest_controller)).2
    = (run7 (set_uncoupling false rest_controller)).2.
Proof.
have [] // := @decoupled_equals_coupled_when_block_diagonal rat (3 + 3 + 1)
                heron_sqrt skew_orientation_error table_interp table_order
                table_get rest_controller 1%:M J0 J0_pos J0_ori
                erefl erefl erefl erefl opspace_inertia_J0_block.
Defined.

(** C5 at the coupled mass matrix, the default posture and joint positions
    and velocities (1, ..., 1). *)
Lemma posture_gain0_adds_nothing_witness :
  nullspace_torques heron_sqrt (Some coupled_mass)
    (nullspace_projector coupled_mass J0) default_posture
    (Some (const_mx 1)) (Some (const_mx 1)) 0 = Ok 0.
Proof.
have [H _ _] := @posture_gain0_adds_nothing rat (3 + 3 + 1) heron_sqrt
                  skew_orientation_error table_interp table_order table_get
                  heron_sqrt0.
exact: H.
Defined.

(** The amended C6 on the arm at rest (no orientation interpolator): no
    attribute of the goal state changes. *)
Lemma run_controller_goal_state_witness :
  let c' := (run7 rest_controller).1 in
  [/\ goal_pos c' = goal_pos rest_controller,
      goal_ori c' = goal_ori rest_controller,
      ori_ref c' = ori_ref rest_controller
    & relative_ori c' = relative_ori rest_controller /\
      ori_interpolate_started c' = ori_interpolate_started rest_controller].
Proof.
have [H1 H2 H3 H4] := @run_controller_goal_state rat (3 + 3 + 1) heron_sqrt
                        skew_orientation_error table_interp table_order
                        table_get rest_controller.
by split=> //; apply: H4.
Defined.

(** C6, counterexample: with an orientation interpolator of order 4
    attached, one cycle changes ori_interpolate_started from False to
    True. *)
Lemma run_controller_sets_started_flag :
  ori_interpolate_started (with_interpolator_ori 4) = false /\
  ori_interpolate_started (run7 (with_interpolator_ori 4)).1 = true.
Proof.
by split. Qed.

(** The amended C7 with an orientation interpolator of order 4: the flag is
    set. *)
Lemma run_controller_interpolated_orientation_witness :
  ori_interpolate_started (run7 (with_interpolator_ori 4)).1
    = (4 == 4)%N || false.
Proof.
have [c2 [vel [acc [_ _ [_ _ H]]]]] :=
  @run_controller_interpolated_orientation rat (3 + 3 + 1) heron_sqrt
    skew_orientation_error table_interp table_order table_get
    (with_interpolator_ori 4) (with_interpolator_ori 4)
    (Fixed 0, Fixed 0, Fixed 0) (TableInterp 4 [:: 0; 0; 0]) erefl erefl.
exact: H.
Defined.

(** C7, counterexample: with an orientation interpolator of order 2
    attached, the cycle leaves ori_interpolate_started at False. *)
Lemma run_controller_order2_flag_unset :
  interpolator_ori (with_interpolator_ori 2)
    = Some (TableInterp 2 [:: 0; 0; 0]) /\
  ori_interpolate_started (run7 (with_interpolator_ori 2)).1 = false.
Proof.
by split. Qed.

(** C8 on the arm at rest: the cycle runs on the stored goal position and
    the directly computed orientation error. *)
Lemma run_controller_static_references_witness :
  run7 rest_controller
    = (nm <-- task_torques_from
                (Fixed 0, Fixed 0, Fixed 0)
                (Fixed (skew_orientation_error 1%:M 1%:M), Fixed 0, Fixed 0) ;;
       posture_step heron_sqrt nm) rest_controller.
Proof.
by have [] := @run_controller_static_references rat (3 + 3 + 1) heron_sqrt
                skew_orientation_error table_interp table_order table_get
                rest_controller erefl erefl.
Defined.

Lemma const1_neq0 : (const_mx 1 : 'cV[rat]_(3 + 3 + 1)) <> 0.
Proof.
by move/matrixP/(_ 0 0); rewrite !mxE => /eqP; rewrite oner_eq0.
Qed.

Lemma run_short_posture :
  run7 short_posture_controller
    = (set_torques (Some (const_mx 1)) short_posture_controller,
       Raise ShapeMismatch).
Proof.
exact: (@run_controller_at_goal_bad_posture rat (3 + 3 + 1) heron_sqrt
          skew_orientation_error table_interp table_order table_get
          short_posture_controller 1%:M J0 J0_pos J0_ori 0 0
          skew_orientation_error_id erefl erefl erefl erefl erefl erefl
          isT erefl erefl erefl erefl erefl erefl).
Qed.

(** C9, counterexample: with a posture target of three entries the
    null-space step raises, and the cached torques attribute, which held
    the zero vector before the call, holds what line 145 computed in the
    aborted cycle. *)
Lemma run_controller_exposes_partial_torque :
  [/\ (run7 short_posture_controller).2 = Raise ShapeMismatch,
      torques short_posture_controller = Some 0,
      torques (run7 short_posture_controller).1 = Some (const_mx 1)
    & torques (run7 short_posture_controller).1
        <> torques short_posture_controller].
Proof.
rewrite run_short_posture; split=> //=.
by case=> /const1_neq0.
Qed.

(** The amended C9 on the arm with a posture of three entries: the raise
    comes from the null-space step and the cached torque is that of
    line 145. *)
Lemma run_controller_raise_torques_witness :
  let c' := set_torques (Some (const_mx 1)) short_posture_controller in
  torques c' = torques short_posture_controller \/
  exists N Jf w,
    [/\ task_torques skew_orientation_error table_order table_get
          short_posture_controller = (c', Ok N),
        J_full (model c') = Some Jf
      & torques c' = Some (Jf^T *m w + torque_compensation (model c'))].
Proof.
exact: (@run_controller_raise_torques rat (3 + 3 + 1) heron_sqrt
          skew_orientation_error table_interp table_order table_get
          short_posture_controller _ ShapeMismatch run_short_posture).
Defined.

Lemma store_init_self (rm : Model rat (3 + 3 + 1)) (args : unit) (g : rat)
    (p : seq rat) (c : Controller rat (3 + 3 + 1) table_interp) :
  store_init rm args g p = Ok c -> model c = rm /\ goal_posture c = p.
Proof. by case=> <-. Qed.

(** C10 on the arm at rest with a base constructor that stores what it is
    given: construction succeeds, and the model is complete. *)
Lemma init_requires_complete_state_witness :
  let c := mkController 0 default_posture rest_model (const_mx 50%:R)
             (const_mx 14%:R) None None true 0 1%:M 1%:M 0 false None in
  __init__ heron_sqrt skew_orientation_error 10%:R store_init rest_model tt
    0 default_posture = Ok c /\
  [/\ _compile_jit_functions heron_sqrt skew_orientation_error 10%:R c
        = Ok tt,
      complete rest_model & size default_posture = (3 + 3 + 1)%N].
Proof.
have [_ H _] := @init_requires_complete_state rat (3 + 3 + 1) heron_sqrt
                  skew_orientation_error table_interp 10%:R unit
                  store_init store_init_self rest_model tt 0
                  default_posture.
by split; last apply: H.
Defined.

(* ---- instances of the properties of the cycle ------------------------ *)

Lemma run7_rest :
  run7 rest_controller
    = (set_torques (Some (const_mx 1)) rest_controller, Ok (const_mx 1)).
Proof.
exact: (@run_controller_at_goal rat (3 + 3 + 1) heron_sqrt
          skew_orientation_error table_interp table_order table_get
          rest_controller 1%:M J0 J0_pos J0_ori 0 0 heron_sqrt0
          skew_orientation_error_id erefl erefl erefl erefl erefl erefl
          erefl erefl erefl erefl erefl erefl erefl erefl).
Qed.

Lemma vec_of_seq_zeros : vec_of_seq 3 [:: 0; 0; 0] = 0 :> 'cV[rat]_3.
Proof.
by apply/colP => i; rewrite !mxE; case: i => [[|[|[|]]]].
Qed.

(** X1 on the arm at rest: the cached torque is the returned (1, ..., 1). *)
Lemma run_controller_caches_result_witness :
  torques (set_torques (Some (const_mx 1)) rest_controller)
    = Some (const_mx 1).
Proof. exact: (run_controller_caches_result run7_rest). Defined.

(** X4 on the arm at rest. *)
Lemma run_controller_static_idempotent_witness :
  run7 (run7 rest_controller).1 = run7 rest_controller.
Proof.
exact: (@run_controller_static_idempotent rat (3 + 3 + 1) heron_sqrt
          skew_orientation_error table_interp table_order table_get
          rest_controller erefl erefl).
Defined.

(** X5 on the arm whose state provider has no mass matrix. *)
Lemma run_controller_absent_kernel_reading_witness :
  (exists e, (run7 no_mass_controller).2 = Raise e) /\
  torques (run7 no_mass_controller).1 = torques no_mass_controller.
Proof.
exact: (@run_controller_absent_kernel_reading rat (3 + 3 + 1) heron_sqrt
          skew_orientation_error table_interp table_order table_get
          no_mass_controller isT).
Defined.

(** X6 on the arm at rest, whose cycle returns. *)
Lemma run_controller_returns_only_if_complete_witness :
  complete rest_model /\ size default_posture = (3 + 3 + 1)%N.
Proof.
apply: (@run_controller_returns_only_if_complete rat (3 + 3 + 1)
          heron_sqrt skew_orientation_error table_interp table_order
          table_get rest_controller).
by rewrite run7_rest.
Defined.

(** X8 with an order-4 position interpolator that answers seven entries:
    the cycle returns. *)
Lemma run_controller_position_result_length_witness :
  is_ok (run7 (with_interpolator_pos 4 [:: 0; 0; 0; 0; 0; 0; 0])).2 = true.
Proof.
exact: (@run_controller_position_result_length rat (3 + 3 + 1) heron_sqrt
          skew_orientation_error table_interp table_order table_get
          (with_interpolator_pos 4 [:: 0; 0; 0; 0; 0; 0; 0])
          (TableInterp 4 [:: 0; 0; 0; 0; 0; 0; 0]) erefl erefl isT erefl).
Defined.

(** X9 with an order-2 orientation interpolator that answers five entries:
    the cycle returns. *)
Lemma run_controller_orientation_result_length_witness :
  is_ok (run7 (with_interpolator_ori_out 2 [:: 0; 0; 0; 1; 1])).2 = true.
Proof.
exact: (@run_controller_orientation_result_length rat (3 + 3 + 1)
          heron_sqrt skew_orientation_error table_interp table_order
          table_get (with_interpolator_ori_out 2 [:: 0; 0; 0; 1; 1])
          (TableInterp 2 [:: 0; 0; 0; 1; 1]) erefl erefl isT erefl).
Defined.

(** X10 with an order-2 position interpolator that answers the goal. *)
Lemma run_controller_interpolated_static_goal_witness :
  (run7 (with_interpolator_pos 2 [:: 0; 0; 0])).2
    = (run7 (set_interpolator_pos None
               (with_interpolator_pos 2 [:: 0; 0; 0]))).2.
Proof.
apply: (@run_controller_interpolated_static_goal rat (3 + 3 + 1) heron_sqrt
          skew_orientation_error table_interp table_order table_get
          (with_interpolator_pos 2 [:: 0; 0; 0])
          (TableInterp 2 [:: 0; 0; 0]) erefl).
by rewrite /= /broadcast /= vec_of_seq_zeros.
Defined.

(** X13 on the arm at rest, whose cycle returns. *)
Lemma run_controller_returns_only_if_prewarm_witness :
  is_ok (_compile_jit_functions heron_sqrt skew_orientation_error 10%:R
           rest_controller).
Proof.
apply: (@run_controller_returns_only_if_prewarm rat (3 + 3 + 1) heron_sqrt
          skew_orientation_error table_interp table_order table_get 10%:R
          rest_controller).
by rewrite run7_rest.
Defined.

(** X15 on the arm at rest with the flag set and an order-2 orientation
    interpolator attached. *)
Lemma run_controller_never_clears_flag_witness :
  ori_interpolate_started
    (run7 (set_ori_interpolate_started true (with_interpolator_ori 2))).1.
Proof.
exact: (@run_controller_never_clears_flag rat (3 + 3 + 1) heron_sqrt
          skew_orientation_error table_interp table_order table_get
          (set_ori_interpolate_started true (with_interpolator_ori 2)) isT).
Defined.
